(** * Daily Sales Tracker: the ledger of [App.tsx], embedded and verified

    The development follows [src/App.tsx].  The component keeps a list of
    [Transaction]s in React state, mirrors it to [localStorage] under the key
    [dailySales], and derives the summaries of the day and of the week in a
    [useMemo].  The state is a record, a handler a function on it, the
    effect a function on the storage area; the clock, the generated id and
    the answer of the confirmation dialogue are arguments.

    The platform is modelled after ECMA-262:
    - strings are sequences of UTF-16 code units ([jsstring]);
    - [Date] follows the time values of section 21.4.1 with the calendar of
      that section; local time is UTC plus a constant [LocalTZA] (no
      daylight saving: the application is Indonesian, and Indonesia has
      none) and [TimeClip] is left out.  The properties of the week and of
      the day are stated in local calendar days, not in multiples of 24
      hours;
    - the numbers of the ledger come from [parseInt] and are integers of
      [Z], exact on the safe integers of binary64; [NaN] lives in the form
      state only and the infinities nowhere.  A property that states an
      exact sum, or a number written to storage and read back, is stated
      for safe integers ([exact_totals], [representable]): there the sums,
      [JSON.stringify] and [JSON.parse] of the platform do not round;
    - [JSON.parse] and [JSON.stringify] are implemented on code units, with
      numbers held by their exact decimal value;
    - [localStorage] is a list of keys and values under a quota. *)

From Stdlib Require Import String Ascii.
From Stdlib Require Import ZArith NArith List Bool Lia.
Import ListNotations.
Open Scope Z_scope.

(** ** Strings *)

Definition code_unit := N.
Bind Scope N_scope with code_unit.
Definition jsstring := list code_unit.

(** A string literal of the source, as code units. *)
Definition lit (s : String.string) : jsstring :=
  map Ascii.N_of_ascii (String.list_ascii_of_string s).

Arguments lit s%_string.

Fixpoint str_eqb (a b : jsstring) : bool :=
  match a, b with
  | [], [] => true
  | x :: a', y :: b' => N.eqb x y && str_eqb a' b'
  | _, _ => false
  end.

(** WhiteSpace and LineTerminator code points of ECMA-262, the characters
    [String.prototype.trim] strips. *)
Definition is_white_space (c : code_unit) : bool :=
  match c with
  | 9 | 10 | 11 | 12 | 13 | 32 | 160 | 5760 | 8232 | 8233 | 8239 | 8287
  | 12288 | 65279 => true
  | _ => N.leb 8192 c && N.leb c 8202
  end%N.

Fixpoint trimStart (s : jsstring) : jsstring :=
  match s with
  | c :: s' => if is_white_space c then trimStart s' else s
  | [] => []
  end.

Definition trimEnd (s : jsstring) : jsstring := rev (trimStart (rev s)).

Definition trim (s : jsstring) : jsstring := trimEnd (trimStart s).

(** Truthiness of a string: every string but the empty one. *)
Definition truthy (s : jsstring) : bool :=
  match s with [] => false | _ :: _ => true end.

(** ** Dates (ECMA-262 21.4.1) *)

Module Date.

Definition msPerDay : Z := 86400000.
Definition msPerHour : Z := 3600000.
Definition msPerMinute : Z := 60000.
Definition msPerSecond : Z := 1000.

Definition Day (t : Z) : Z := t / msPerDay.
Definition TimeWithinDay (t : Z) : Z := t mod msPerDay.

Definition DaysInYear (y : Z) : Z :=
  if (y mod 4 =? 0) && (negb (y mod 100 =? 0) || (y mod 400 =? 0))
  then 366 else 365.

Definition DayFromYear (y : Z) : Z :=
  365 * (y - 1970) + (y - 1969) / 4 - (y - 1901) / 100 + (y - 1601) / 400.

(** The largest year that starts on or before day [d], searched downwards
    from an upper estimate. *)
Fixpoint year_search (fuel : nat) (y d : Z) : Z :=
  match fuel with
  | O => y
  | S f => if DayFromYear y <=? d then y else year_search f (y - 1) d
  end.

Definition YearFromTime (t : Z) : Z :=
  let d := Day t in
  year_search (Z.to_nat (Z.abs d / 100000 + 3))
              (1970 + Z.max (d / 365) (d / 366) + 1) d.

Definition InLeapYear (t : Z) : Z :=
  if DaysInYear (YearFromTime t) =? 366 then 1 else 0.

Definition DayWithinYear (t : Z) : Z := Day t - DayFromYear (YearFromTime t).

(** Days of the year that precede month [m] (0 = January). *)
Definition DaysBeforeMonth (m leap : Z) : Z :=
  match m with
  | 0 => 0
  | 1 => 31
  | 2 => 59 + leap
  | 3 => 90 + leap
  | 4 => 120 + leap
  | 5 => 151 + leap
  | 6 => 181 + leap
  | 7 => 212 + leap
  | 8 => 243 + leap
  | 9 => 273 + leap
  | 10 => 304 + leap
  | _ => 334 + leap
  end.

Definition MonthFromTime (t : Z) : Z :=
  let d := DayWithinYear t in
  let leap := InLeapYear t in
  if d <? 31 then 0
  else if d <? 59 + leap then 1
  else if d <? 90 + leap then 2
  else if d <? 120 + leap then 3
  else if d <? 151 + leap then 4
  else if d <? 181 + leap then 5
  else if d <? 212 + leap then 6
  else if d <? 243 + leap then 7
  else if d <? 273 + leap then 8
  else if d <? 304 + leap then 9
  else if d <? 334 + leap then 10
  else 11.

Definition DateFromTime (t : Z) : Z :=
  DayWithinYear t - DaysBeforeMonth (MonthFromTime t) (InLeapYear t) + 1.

Definition WeekDay (t : Z) : Z := (Day t + 4) mod 7.

Definition MakeTime (hour min sec ms : Z) : Z :=
  hour * msPerHour + min * msPerMinute + sec * msPerSecond + ms.

Definition MakeDay (year month date : Z) : Z :=
  let ym := year + month / 12 in
  let mn := month mod 12 in
  let leap := if DaysInYear ym =? 366 then 1 else 0 in
  DayFromYear ym + DaysBeforeMonth mn leap + date - 1.

Definition MakeDate (day time : Z) : Z := day * msPerDay + time.

Section LocalTime.

(** Offset of local time from UTC in milliseconds. *)
Variable LocalTZA : Z.

Definition LocalTime (t : Z) : Z := t + LocalTZA.
Definition UTC (t : Z) : Z := t - LocalTZA.

(** The methods of [Date.prototype] the component uses.  A [Date] object
    is its time value; a setter returns the new time value. *)
Definition getTime (t : Z) : Z := t.
Definition getDay (t : Z) : Z := WeekDay (LocalTime t).
Definition getDate (t : Z) : Z := DateFromTime (LocalTime t).

Definition setDate (t dt : Z) : Z :=
  let lt := LocalTime t in
  UTC (MakeDate (MakeDay (YearFromTime lt) (MonthFromTime lt) dt)
                (TimeWithinDay lt)).

Definition setHours (t hour min sec ms : Z) : Z :=
  let lt := LocalTime t in
  UTC (MakeDate (Day lt) (MakeTime hour min sec ms)).

End LocalTime.

End Date.

(** ** The data model *)

Record Transaction := {
  id : jsstring;
  name : jsstring;
  quantity : Z;
  price : Z;
  timestamp : Z
}.

(** ** The summary ([useMemo], lines 47-92) *)

Section Summary.

Variable LocalTZA : Z.

Definition WEEKLY_TARGET : Z := 9000000.

(** [new Date(); setHours(0, 0, 0, 0)] at clock reading [clock]. *)
Definition startOfToday (clock : Z) : Z :=
  Date.setHours LocalTZA clock 0 0 0 0.

Definition todayDay (now : Z) : Z := Date.getDay LocalTZA now.

Definition offset (now : Z) : Z :=
  if todayDay now <? 6 then todayDay now + 1 else todayDay now - 6.

Definition startOfWeek (now : Z) : Z :=
  let startOfWeek := now in
  let startOfWeek :=
    Date.setDate LocalTZA startOfWeek (Date.getDate LocalTZA now - offset now) in
  Date.setHours LocalTZA startOfWeek 0 0 0 0.

Definition weeklyTransactions (now : Z) (transactions : list Transaction) :=
  filter (fun t => timestamp t >=? Date.getTime (startOfWeek now)) transactions.

(** [clock] is the second clock reading, taken for [startOfToday]. *)
Definition dailyTransactions (now clock : Z) (transactions : list Transaction) :=
  filter (fun t => timestamp t >=? Date.getTime (startOfToday clock))
         (weeklyTransactions now transactions).

Definition weekTotals (now : Z) (transactions : list Transaction) : Z :=
  fold_left (fun acc t => acc + quantity t * price t)
            (weeklyTransactions now transactions) 0.

(** The accumulator [{ sales, items }] as a pair. *)
Definition dayTotals (now clock : Z) (transactions : list Transaction) : Z * Z :=
  fold_left (fun acc t => (fst acc + quantity t * price t, snd acc + quantity t))
            (dailyTransactions now clock transactions) (0, 0).

Definition isThursday (now : Z) : bool := todayDay now =? 4.

Definition shouldShowWarning (now : Z) (transactions : list Transaction) : bool :=
  isThursday now && (weekTotals now transactions <? WEEKLY_TARGET).

Record Summary := {
  totalSalesToday : Z;
  totalItemsToday : Z;
  totalSalesThisWeek : Z;
  showWarning : bool;
  transactionsToday : list Transaction
}.

(** The body of the memo.  The source reads the clock twice, once for [now]
    and once for [startOfToday]. *)
Definition summary2 (now clock : Z) (transactions : list Transaction) : Summary :=
  {| totalSalesToday := fst (dayTotals now clock transactions);
     totalItemsToday := snd (dayTotals now clock transactions);
     totalSalesThisWeek := weekTotals now transactions;
     showWarning := shouldShowWarning now transactions;
     transactionsToday := dailyTransactions now clock transactions |}.

(** The summary at one instant: both clock readings return [now]. *)
Definition summary (now : Z) (transactions : list Transaction) : Summary :=
  summary2 now now transactions.

End Summary.

(** ** Completions

    A call that may throw returns a completion; [try]/[catch] is a match on
    it. *)

Inductive error :=
| SyntaxError
| QuotaExceededError.

Inductive completion (A : Type) :=
| Normal (a : A)
| Throw (e : error).

Arguments Normal {A} a.
Arguments Throw {A} e.

(** ** JSON (ECMA-262 section 25.5, ECMA-404)

    Values are the ones [JSON.parse] builds: no [undefined], no functions.
    A number is held by its exact decimal value, an integer or [m / 10^k]
    with [m] not a multiple of ten; rounding to binary64 is not modelled. *)

Module JSON.

(** Code units of the grammar: 9 tab, 10 line feed, 13 carriage return,
    32 space, 34 quote, 43 plus, 44 comma, 45 minus, 46 point, 47 slash,
    48 to 57 the digits, 58 colon, 69 E, 91 and 93 the square brackets,
    92 backslash, 98 b, 101 e, 102 f, 110 n, 114 r, 116 t, 117 u, 123 and
    125 the braces. *)

Inductive json_number :=
| Int (z : Z)
| Dec (m : Z) (k : positive).

#[warnings="-register-all"] Inductive value :=
| JNull
| JBool (b : bool)
| JNumber (n : json_number)
| JString (s : jsstring)
| JArray (l : list value)
| JObject (o : list (jsstring * value)).

Definition object := list (jsstring * value).

(** *** Property order of an ordinary object

    Array indices first, ascending, then the other keys in the order of
    their creation; defining a key again keeps its place. *)

Definition is_digit (c : code_unit) : bool := (N.leb 48 c && N.leb c 57)%bool.

Fixpoint digits_value (s : jsstring) (acc : N) : option N :=
  match s with
  | [] => Some acc
  | c :: s' => if is_digit c then digits_value s' (acc * 10 + (c - 48))%N else None
  end.

Definition array_index (k : jsstring) : option N :=
  match k with
  | [] => None
  | [48%N] => Some 0%N
  | c :: _ =>
      if N.eqb c 48 then None
      else match digits_value k 0 with
           | Some i => if N.ltb i 4294967295 then Some i else None
           | None => None
           end
  end.

Fixpoint has_key (k : jsstring) (o : object) : bool :=
  match o with
  | [] => false
  | (k', _) :: o' => str_eqb k' k || has_key k o'
  end.

Fixpoint replace (k : jsstring) (v : value) (o : object) : object :=
  match o with
  | [] => []
  | (k', v') :: o' => if str_eqb k' k then (k', v) :: o' else (k', v') :: replace k v o'
  end.

Fixpoint insert_index (i : N) (k : jsstring) (v : value) (o : object) : object :=
  match o with
  | [] => [(k, v)]
  | (k', v') :: o' =>
      match array_index k' with
      | Some j => if N.ltb j i then (k', v') :: insert_index i k v o' else (k, v) :: o
      | None => (k, v) :: o
      end
  end.

(** [CreateDataProperty(o, k, v)]. *)
Definition set (k : jsstring) (v : value) (o : object) : object :=
  if has_key k o then replace k v o
  else match array_index k with
       | Some i => insert_index i k v o
       | None => o ++ [(k, v)]
       end.

Fixpoint get (k : jsstring) (o : object) : option value :=
  match o with
  | [] => None
  | (k', v) :: o' => if str_eqb k' k then Some v else get k o'
  end.

(** *** [JSON.stringify] *)

Definition hex_digit (n : N) : code_unit :=
  if N.ltb n 10 then (48 + n)%N else (87 + n)%N.

(** [\uXXXX], lower case. *)
Definition UnicodeEscape (c : code_unit) : jsstring :=
  [92; 117; hex_digit (c / 4096 mod 16); hex_digit (c / 256 mod 16);
   hex_digit (c / 16 mod 16); hex_digit (c mod 16)]%N.

Definition is_leading_surrogate (c : code_unit) : bool :=
  (N.leb 55296 c && N.leb c 56319)%bool.
Definition is_trailing_surrogate (c : code_unit) : bool :=
  (N.leb 56320 c && N.leb c 57343)%bool.

Fixpoint quote_chars (s : jsstring) : jsstring :=
  match s with
  | [] => []
  | c :: s' =>
      if N.eqb c 8 then [92; 98]%N ++ quote_chars s'
      else if N.eqb c 9 then [92; 116]%N ++ quote_chars s'
      else if N.eqb c 10 then [92; 110]%N ++ quote_chars s'
      else if N.eqb c 12 then [92; 102]%N ++ quote_chars s'
      else if N.eqb c 13 then [92; 114]%N ++ quote_chars s'
      else if N.eqb c 34 then [92; 34]%N ++ quote_chars s'
      else if N.eqb c 92 then [92; 92]%N ++ quote_chars s'
      else if N.ltb c 32 then UnicodeEscape c ++ quote_chars s'
      else if is_leading_surrogate c then
        match s' with
        | d :: s'' =>
            if is_trailing_surrogate d then c :: d :: quote_chars s''
            else UnicodeEscape c ++ quote_chars s'
        | [] => UnicodeEscape c
        end
      else if is_trailing_surrogate c then UnicodeEscape c ++ quote_chars s'
      else c :: quote_chars s'
  end.

Definition QuoteJSONString (s : jsstring) : jsstring :=
  [34%N] ++ quote_chars s ++ [34%N].

(** Decimal digits of a natural number, most significant first. *)
Fixpoint digits_aux (fuel : nat) (n : N) (acc : jsstring) : jsstring :=
  match fuel with
  | O => acc
  | S f =>
      let acc' := (48 + n mod 10)%N :: acc in
      if N.eqb (n / 10) 0 then acc' else digits_aux f (n / 10) acc'
  end.

Definition digits (n : N) : jsstring :=
  digits_aux (S (N.to_nat (N.log2 n))) n [].

(** [n = s * 10^e] with [s] not a multiple of ten, for [n > 0]. *)
Fixpoint strip_zeros (fuel : nat) (s : N) (e : Z) : N * Z :=
  match fuel with
  | O => (s, e)
  | S f => if N.eqb (s mod 10) 0 then strip_zeros f (s / 10)%N (e + 1) else (s, e)
  end.

(** [Number::toString] of [s * 10^e], [s] positive and not a multiple of
    ten: with [k] the number of digits of [s] and [n = k + e], steps 7 to
    11 of the algorithm. *)
Definition to_string_pos (s : N) (e : Z) : jsstring :=
  let ds := digits s in
  let k := Z.of_nat (length ds) in
  let n := k + e in
  if (k <=? n) && (n <=? 21) then ds ++ repeat 48%N (Z.to_nat (n - k))
  else if (0 <? n) && (n <=? 21) then
    firstn (Z.to_nat n) ds ++ [46%N] ++ skipn (Z.to_nat n) ds
  else if (-6 <? n) && (n <=? 0) then
    [48; 46]%N ++ repeat 48%N (Z.to_nat (- n)) ++ ds
  else
    let ex := [101%N; if n - 1 <? 0 then 45%N else 43%N]
                ++ digits (Z.to_N (Z.abs (n - 1))) in
    match ds with
    | [] => []
    | [d] => d :: ex
    | d :: ds' => d :: 46%N :: ds' ++ ex
    end.

Definition NumberToString (x : json_number) : jsstring :=
  match x with
  | Int 0 => [48%N]
  | Int z =>
      let (s, e) := strip_zeros (N.to_nat (N.log2 (Z.abs_N z))) (Z.abs_N z) 0 in
      (if z <? 0 then [45%N] else []) ++ to_string_pos s e
  | Dec m k =>
      (if m <? 0 then [45%N] else []) ++ to_string_pos (Z.abs_N m) (Z.neg k)
  end.

Fixpoint join (l : list jsstring) : jsstring :=
  match l with
  | [] => []
  | [x] => x
  | x :: l' => x ++ [44%N] ++ join l'
  end.

Fixpoint stringify (v : value) : jsstring :=
  match v with
  | JNull => lit "null"
  | JBool true => lit "true"
  | JBool false => lit "false"
  | JNumber n => NumberToString n
  | JString s => QuoteJSONString s
  | JArray l => [91%N] ++ join (map stringify l) ++ [93%N]
  | JObject o =>
      [123%N]
        ++ join (map (fun kv => QuoteJSONString (fst kv) ++ [58%N] ++ stringify (snd kv)) o)
        ++ [125%N]
  end.

(** *** [JSON.parse]

    The grammar of ECMA-404 read one code unit at a time: the state holds
    what is being read and the stack of the arrays and objects that are
    open. *)

Inductive frame :=
| FArray (done : list value)
| FObject (o : object) (key : jsstring).

(** Where the string being read goes when its closing quote comes. *)
Inductive string_end :=
| EndValue (K : list frame)
| EndKey (o : object) (K : list frame).

Inductive phase :=
| PMinus | PZero | PInt | PDot | PFrac | PExp | PExpSign | PExpDigits.

Record numeral := {
  neg : bool;
  mant : N;
  frac : N;
  eneg : bool;
  expo : N
}.

Inductive state :=
| Value (K : list frame)
| ArrayStart (K : list frame)
| ArrayAfter (done : list value) (K : list frame)
| ObjectStart (K : list frame)
| ObjectKey (o : object) (K : list frame)
| ObjectColon (o : object) (key : jsstring) (K : list frame)
| ObjectAfter (o : object) (K : list frame)
| Literal (rest : jsstring) (v : value) (K : list frame)
| Str (acc : jsstring) (k : string_end)
| Escape (acc : jsstring) (k : string_end)
| Hex (n : nat) (u : N) (acc : jsstring) (k : string_end)
| Numeral (ph : phase) (d : numeral) (K : list frame)
| Done (v : value)
| Fail.

Definition is_ws (c : code_unit) : bool :=
  (N.eqb c 9 || N.eqb c 10 || N.eqb c 13 || N.eqb c 32)%bool.

Definition hex_value (c : code_unit) : option N :=
  if is_digit c then Some (c - 48)%N
  else if (N.leb 97 c && N.leb c 102)%bool then Some (c - 87)%N
  else if (N.leb 65 c && N.leb c 70)%bool then Some (c - 55)%N
  else None.

(** A complete value [v] goes to the innermost open array or object. *)
Definition deliver (v : value) (K : list frame) : state :=
  match K with
  | [] => Done v
  | FArray done :: K' => ArrayAfter (v :: done) K'
  | FObject o key :: K' => ObjectAfter (set key v o) K'
  end.

Definition end_string (k : string_end) (s : jsstring) : state :=
  match k with
  | EndValue K => deliver (JString s) K
  | EndKey o K => ObjectColon o s K
  end.

(** The exact value [m / 10^k], in lowest decimal terms. *)
Fixpoint reduce (fuel : nat) (m k : Z) : json_number :=
  match fuel with
  | O => if k =? 0 then Int m else Dec m (Z.to_pos k)
  | S f =>
      if k =? 0 then Int m
      else if m mod 10 =? 0 then reduce f (m / 10) (k - 1)
      else Dec m (Z.to_pos k)
  end.

Definition numeral_value (d : numeral) : json_number :=
  let e := (if eneg d then - Z.of_N (expo d) else Z.of_N (expo d)) - Z.of_N (frac d) in
  let m := if neg d then - Z.of_N (mant d) else Z.of_N (mant d) in
  if 0 <=? e then Int (m * 10 ^ e) else reduce (Z.to_nat (- e)) m (- e).

Definition numeral_start (negative : bool) (m : N) : numeral :=
  {| neg := negative; mant := m; frac := 0; eneg := false; expo := 0 |}.

(** The phases in which the number may end. *)
Definition accepting (ph : phase) : bool :=
  match ph with
  | PZero | PInt | PFrac | PExpDigits => true
  | _ => false
  end.

(** The number goes on with [c], or [c] is not part of it. *)
Definition step_numeral (ph : phase) (d : numeral) (c : code_unit)
  : option (phase * numeral) :=
  let digit := (c - 48)%N in
  let is_e := (N.eqb c 101 || N.eqb c 69)%bool in
  let more_mant (ph' : phase) (f : N) :=
    Some (ph', {| neg := neg d; mant := mant d * 10 + digit; frac := frac d + f;
                  eneg := eneg d; expo := expo d |}) in
  let more_expo :=
    Some (PExpDigits, {| neg := neg d; mant := mant d; frac := frac d;
                         eneg := eneg d; expo := expo d * 10 + digit |}) in
  match ph with
  | PMinus =>
      if N.eqb c 48 then Some (PZero, d)
      else if is_digit c then more_mant PInt 0%N
      else None
  | PZero =>
      if N.eqb c 46 then Some (PDot, d)
      else if is_e then Some (PExp, d)
      else None
  | PInt =>
      if is_digit c then more_mant PInt 0%N
      else if N.eqb c 46 then Some (PDot, d)
      else if is_e then Some (PExp, d)
      else None
  | PDot => if is_digit c then more_mant PFrac 1%N else None
  | PFrac =>
      if is_digit c then more_mant PFrac 1%N
      else if is_e then Some (PExp, d)
      else None
  | PExp =>
      if N.eqb c 43 then Some (PExpSign, d)
      else if N.eqb c 45 then
        Some (PExpSign, {| neg := neg d; mant := mant d; frac := frac d;
                           eneg := true; expo := expo d |})
      else if is_digit c then more_expo
      else None
  | PExpSign => if is_digit c then more_expo else None
  | PExpDigits => if is_digit c then more_expo else None
  end.

(** After a value: a separator, the end of the container, or white
    space. *)
Definition step_after (st : state) (c : code_unit) : state :=
  match st with
  | Done v => if is_ws c then Done v else Fail
  | ArrayAfter done K =>
      if is_ws c then ArrayAfter done K
      else if N.eqb c 44 then Value (FArray done :: K)
      else if N.eqb c 93 then deliver (JArray (rev done)) K
      else Fail
  | ObjectAfter o K =>
      if is_ws c then ObjectAfter o K
      else if N.eqb c 44 then ObjectKey o K
      else if N.eqb c 125 then deliver (JObject o) K
      else Fail
  | _ => Fail
  end.

(** The first code unit of a value. *)
Definition step_value (K : list frame) (c : code_unit) : state :=
  if is_ws c then Value K
  else if N.eqb c 34 then Str [] (EndValue K)
  else if N.eqb c 91 then ArrayStart K
  else if N.eqb c 123 then ObjectStart K
  else if N.eqb c 110 then Literal (lit "ull") JNull K
  else if N.eqb c 116 then Literal (lit "rue") (JBool true) K
  else if N.eqb c 102 then Literal (lit "alse") (JBool false) K
  else if N.eqb c 45 then Numeral PMinus (numeral_start true 0) K
  else if N.eqb c 48 then Numeral PZero (numeral_start false 0) K
  else if is_digit c then Numeral PInt (numeral_start false (c - 48)) K
  else Fail.

Definition step (st : state) (c : code_unit) : state :=
  match st with
  | Value K => step_value K c
  | ArrayStart K =>
      if is_ws c then ArrayStart K
      else if N.eqb c 93 then deliver (JArray []) K
      else step_value (FArray [] :: K) c
  | ObjectStart K =>
      if is_ws c then ObjectStart K
      else if N.eqb c 125 then deliver (JObject []) K
      else if N.eqb c 34 then Str [] (EndKey [] K)
      else Fail
  | ObjectKey o K =>
      if is_ws c then ObjectKey o K
      else if N.eqb c 34 then Str [] (EndKey o K)
      else Fail
  | ObjectColon o key K =>
      if is_ws c then ObjectColon o key K
      else if N.eqb c 58 then Value (FObject o key :: K)
      else Fail
  | Literal rest v K =>
      match rest with
      | [] => Fail
      | [x] => if N.eqb c x then deliver v K else Fail
      | x :: rest' => if N.eqb c x then Literal rest' v K else Fail
      end
  | Str acc k =>
      if N.eqb c 34 then end_string k (rev acc)
      else if N.eqb c 92 then Escape acc k
      else if N.ltb c 32 then Fail
      else Str (c :: acc) k
  | Escape acc k =>
      if N.eqb c 34 then Str (34%N :: acc) k
      else if N.eqb c 92 then Str (92%N :: acc) k
      else if N.eqb c 47 then Str (47%N :: acc) k
      else if N.eqb c 98 then Str (8%N :: acc) k
      else if N.eqb c 102 then Str (12%N :: acc) k
      else if N.eqb c 110 then Str (10%N :: acc) k
      else if N.eqb c 114 then Str (13%N :: acc) k
      else if N.eqb c 116 then Str (9%N :: acc) k
      else if N.eqb c 117 then Hex 4 0 acc k
      else Fail
  | Hex n u acc k =>
      match hex_value c with
      | None => Fail
      | Some h =>
          let u' := (u * 16 + h)%N in
          match n with
          | O => Fail
          | S O => Str (u' :: acc) k
          | S n' => Hex n' u' acc k
          end
      end
  | Numeral ph d K =>
      match step_numeral ph d c with
      | Some (ph', d') => Numeral ph' d' K
      | None =>
          if accepting ph then step_after (deliver (JNumber (numeral_value d)) K) c
          else Fail
      end
  | Done _ | ArrayAfter _ _ | ObjectAfter _ _ => step_after st c
  | Fail => Fail
  end.

Definition run (st : state) (s : jsstring) : state := fold_left step s st.

(** The end of the text: one value must be complete, nothing open. *)
Definition finish (st : state) : completion value :=
  match st with
  | Done v => Normal v
  | Numeral ph d [] =>
      if accepting ph then Normal (JNumber (numeral_value d)) else Throw SyntaxError
  | _ => Throw SyntaxError
  end.

Definition parse (text : jsstring) : completion value :=
  finish (run (Value []) text).

(** *** Plain values

    The values whose numbers are integers and whose objects list their
    keys in the order of their creation: keys that are pairwise different
    and none an array index. *)

#[warnings="-register-all"] Inductive plain : value -> Prop :=
| plain_null : plain JNull
| plain_bool b : plain (JBool b)
| plain_int z : plain (JNumber (Int z))
| plain_string s : plain (JString s)
| plain_array l : Forall plain l -> plain (JArray l)
| plain_object o :
    NoDup (map fst o) ->
    Forall (fun kv => array_index (fst kv) = None) o ->
    Forall (fun kv => plain (snd kv)) o ->
    plain (JObject o).

(** The code units that follow a value inside an array or an object. *)
Definition follows (c : code_unit) : Prop := c = 44%N \/ c = 93%N \/ c = 125%N.

(** [reads v]: the text of [v], followed by a separator or a closing
    bracket, is read as [v]. *)
Definition reads (v : value) : Prop :=
  forall K c rest, follows c ->
    run (Value K) (stringify v ++ c :: rest) = run (step (deliver v K) c) rest.

(** The same with nothing asked of what follows; numbers excepted, which
    end where the next code unit says. *)
Definition reads_closed (v : value) : Prop :=
  forall K rest, run (Value K) (stringify v ++ rest) = run (deliver v K) rest.

(** The text of a member of an object. *)
Definition member (kv : jsstring * value) : jsstring :=
  QuoteJSONString (fst kv) ++ [58%N] ++ stringify (snd kv).

End JSON.

(** ** [localStorage]

    The storage area of the origin: string keys and string values, within a
    quota on their total length.  [setItem] throws when the quota would be
    exceeded and then leaves the area as it was. *)

Module localStorage.

Record Storage := {
  items : list (jsstring * jsstring);
  quota : N
}.

Fixpoint lookup (key : jsstring) (l : list (jsstring * jsstring)) : option jsstring :=
  match l with
  | [] => None
  | (k, v) :: l' => if str_eqb k key then Some v else lookup key l'
  end.

Fixpoint update (key value : jsstring) (l : list (jsstring * jsstring)) :=
  match l with
  | [] => [(key, value)]
  | (k, v) :: l' =>
      if str_eqb k key then (k, value) :: l' else (k, v) :: update key value l'
  end.

(** Code units held, keys and values. *)
Definition size (l : list (jsstring * jsstring)) : N :=
  fold_right (fun kv n => (N.of_nat (length (fst kv)) + N.of_nat (length (snd kv)) + n)%N)
             0%N l.

(** [null] when the key is not there. *)
Definition getItem (key : jsstring) (st : Storage) : option jsstring :=
  lookup key (items st).

Definition setItem (key value : jsstring) (st : Storage) : completion Storage :=
  let items' := update key value (items st) in
  if (size items' <=? quota st)%N
  then Normal {| items := items'; quota := quota st |}
  else Throw QuotaExceededError.

End localStorage.

(** ** The ledger as a JavaScript value *)

(** The object of a transaction, its properties in the order of the literal
    of lines 98-104. *)
Definition value_of_transaction (t : Transaction) : JSON.value :=
  JSON.JObject
    [ (lit "id", JSON.JString (id t));
      (lit "name", JSON.JString (name t));
      (lit "quantity", JSON.JNumber (JSON.Int (quantity t)));
      (lit "price", JSON.JNumber (JSON.Int (price t)));
      (lit "timestamp", JSON.JNumber (JSON.Int (timestamp t))) ].

Definition value_of_ledger (l : list Transaction) : JSON.value :=
  JSON.JArray (map value_of_transaction l).

(** Reading a value as a [Transaction]: the five properties, strings and
    integers. *)
Definition transaction_of_value (v : JSON.value) : option Transaction :=
  match v with
  | JSON.JObject o =>
      match JSON.get (lit "id") o, JSON.get (lit "name") o,
            JSON.get (lit "quantity") o, JSON.get (lit "price") o,
            JSON.get (lit "timestamp") o with
      | Some (JSON.JString i), Some (JSON.JString n),
        Some (JSON.JNumber (JSON.Int q)), Some (JSON.JNumber (JSON.Int p)),
        Some (JSON.JNumber (JSON.Int ts)) =>
          Some {| id := i; name := n; quantity := q; price := p; timestamp := ts |}
      | _, _, _, _, _ => None
      end
  | _ => None
  end.

Fixpoint transactions_of_values (l : list JSON.value) : option (list Transaction) :=
  match l with
  | [] => Some []
  | v :: l' =>
      match transaction_of_value v, transactions_of_values l' with
      | Some t, Some ts => Some (t :: ts)
      | _, _ => None
      end
  end.

(** A value is a ledger when it is an array of transactions. *)
Definition ledger_of_value (v : JSON.value) : option (list Transaction) :=
  match v with
  | JSON.JArray l => transactions_of_values l
  | _ => None
  end.

(** ** The component state and its handlers *)

(** A number of the form state: the result of [Math.max(_, parseInt(_, 10))],
    an integer or [NaN]. *)
Inductive number :=
| Fin (z : Z)
| NaN.

(** The state type [number | ''] of the two numeric inputs. *)
Inductive numeric_input :=
| Empty
| Num (n : number).

(** [Number(v)]: the empty string converts to [0]. *)
Definition Number (v : numeric_input) : number :=
  match v with
  | Empty => Fin 0
  | Num n => n
  end.

(** [x > 0]; every comparison with [NaN] is false. *)
Definition gt0 (x : number) : bool :=
  match x with
  | Fin z => 0 <? z
  | NaN => false
  end.

(** [Math.max(a, x)] for an integer [a]: [NaN] when [x] is. *)
Definition Math_max (a : Z) (x : number) : number :=
  match x with
  | Fin z => Fin (Z.max a z)
  | NaN => NaN
  end.

(** The longest run of decimal digits at the head of [s], read from [acc],
    and whether there was a digit at all. *)
Fixpoint leading_digits (s : jsstring) (acc : Z) (seen : bool) : option Z :=
  match s with
  | c :: s' =>
      if (N.leb 48 c && N.leb c 57)%bool
      then leading_digits s' (acc * 10 + Z.of_N (c - 48)) true
      else if seen then Some acc else None
  | [] => if seen then Some acc else None
  end.

(** [parseInt(s, 10)]: white space, a sign, digits; what follows the digits
    is ignored, and without a digit the result is [NaN]. *)
Definition parseInt (s : jsstring) : number :=
  let s := trimStart s in
  let (negative, s) :=
    match s with
    | 45%N :: s' => (true, s')
    | 43%N :: s' => (false, s')
    | _ => (false, s)
    end in
  match leading_digits s 0 false with
  | Some n => Fin (if negative then - n else n)
  | None => NaN
  end.

(** The filter of [handleClearAll], line 122, as a function of its cutoff. *)
Definition clearUpTo (startOfTodayTimestamp : Z) (transactions : list Transaction) :=
  filter (fun t => timestamp t <? startOfTodayTimestamp) transactions.

(** The record literal of [handleAddTransaction], lines 98-104. *)
Definition newTransaction (uuid name : jsstring) (quantity price now : Z) : Transaction :=
  {| id := uuid;
     name := name;
     quantity := quantity;
     price := price;
     timestamp := now |}.

Module App.

Record State := {
  transactions : list Transaction;
  productName : jsstring;
  quantity : numeric_input;
  price : numeric_input
}.

Definition setTransactions (l : list Transaction) (st : State) : State :=
  {| transactions := l;
     productName := productName st;
     quantity := quantity st;
     price := price st |}.

(** [uuid] is the result of [crypto.randomUUID()] and [now] the one of
    [Date.now()]. *)
Definition handleAddTransaction (uuid : jsstring) (now : Z) (st : State) : State :=
  if truthy (trim (productName st))
     && gt0 (Number (quantity st)) && gt0 (Number (price st))
  then
    match Number (quantity st), Number (price st) with
    | Fin q, Fin p =>
        {| transactions :=
             newTransaction uuid (trim (productName st)) q p now :: transactions st;
           productName := [];
           quantity := Num (Fin 1);
           price := Empty |}
    | _, _ => st
    end
  else st.

Definition handleDeleteTransaction (id0 : jsstring) (st : State) : State :=
  setTransactions
    (filter (fun t => negb (str_eqb (id t) id0)) (transactions st)) st.

(** [confirmed] is the answer of [window.confirm]; [clock] the reading of
    [new Date()]. *)
Definition handleClearAll (LocalTZA : Z) (confirmed : bool) (clock : Z)
           (st : State) : State :=
  if confirmed then
    let startOfTodayTimestamp := Date.getTime (startOfToday LocalTZA clock) in
    setTransactions (clearUpTo startOfTodayTimestamp (transactions st)) st
  else st.

(** The initializer of the [transactions] state, lines 19-27: the value
    read is whatever [JSON.parse] returns. *)
Definition load (ls : localStorage.Storage) : JSON.value :=
  let saved := localStorage.getItem (lit "dailySales") ls in
  match saved with
  | Some saved =>
      if truthy saved then
        match JSON.parse saved with
        | Normal v => v
        | Throw _ => JSON.JArray []
        end
      else JSON.JArray []
  | None => JSON.JArray []
  end.

(** The state of the first render.  The component reads the loaded value
    as a [Transaction[]]; when it is none the render cannot go on. *)
Definition initialState (ls : localStorage.Storage) : option State :=
  match ledger_of_value (load ls) with
  | Some l =>
      Some {| transactions := l; productName := [];
              quantity := Num (Fin 1); price := Empty |}
  | None => None
  end.

(** The effect of lines 33-39: a failed write is logged and dropped. *)
Definition persist (transactions : list Transaction) (ls : localStorage.Storage)
  : localStorage.Storage :=
  match localStorage.setItem (lit "dailySales")
                             (JSON.stringify (value_of_ledger transactions)) ls with
  | Normal ls' => ls'
  | Throw _ => ls
  end.

(** The [onChange] handlers of the three inputs, lines 167, 179 and 191;
    [value] is [e.target.value]. *)
Definition changeProductName (value : jsstring) (st : State) : State :=
  {| transactions := transactions st;
     productName := value;
     quantity := quantity st;
     price := price st |}.

Definition changeQuantity (value : jsstring) (st : State) : State :=
  {| transactions := transactions st;
     productName := productName st;
     quantity := if truthy value then Num (Math_max 1 (parseInt value)) else Empty;
     price := price st |}.

Definition changePrice (value : jsstring) (st : State) : State :=
  {| transactions := transactions st;
     productName := productName st;
     quantity := quantity st;
     price := if truthy value then Num (Math_max 0 (parseInt value)) else Empty |}.

(** What the user does, with what the platform answers. *)
Inductive event :=
| ChangeProductName (value : jsstring)
| ChangeQuantity (value : jsstring)
| ChangePrice (value : jsstring)
| AddTransaction (uuid : jsstring) (now : Z)
| DeleteTransaction (id0 : jsstring)
| ClearAll (confirmed : bool) (clock : Z).

Definition handle (LocalTZA : Z) (e : event) (st : State) : State :=
  match e with
  | ChangeProductName value => changeProductName value st
  | ChangeQuantity value => changeQuantity value st
  | ChangePrice value => changePrice value st
  | AddTransaction uuid now => handleAddTransaction uuid now st
  | DeleteTransaction id0 => handleDeleteTransaction id0 st
  | ClearAll confirmed clock => handleClearAll LocalTZA confirmed clock st
  end.

(** Whether the handler calls [setTransactions]: the guard of the addition,
    always for a deletion, the confirmation for the clearing. *)
Definition sets (e : event) (st : State) : bool :=
  match e with
  | ChangeProductName _ | ChangeQuantity _ | ChangePrice _ => false
  | AddTransaction _ _ =>
      truthy (trim (productName st))
      && gt0 (Number (quantity st)) && gt0 (Number (price st))
  | DeleteTransaction _ => true
  | ClearAll confirmed _ => confirmed
  end.

(** A handler, then the effect that mirrors the ledger to storage; the
    effect runs when the ledger has been set. *)
Definition dispatch (LocalTZA : Z) (e : event) (s : State * localStorage.Storage)
  : State * localStorage.Storage :=
  let st' := handle LocalTZA e (fst s) in
  (st', if sets e (fst s) then persist (transactions st') (snd s) else snd s).

(** The state of a start with nothing usable in storage. *)
Definition emptyState : State :=
  {| transactions := []; productName := []; quantity := Num (Fin 1); price := Empty |}.

(** The states the component goes through from there, every generated id
    being fresh. *)
Inductive reachable (LocalTZA : Z) : State -> Prop :=
| reachable_start : reachable LocalTZA emptyState
| reachable_event e st :
    reachable LocalTZA st ->
    (forall uuid now, e = AddTransaction uuid now -> ~ In uuid (map id (transactions st))) ->
    reachable LocalTZA (handle LocalTZA e st).

End App.

(** ** The first render (lines 19-39)

    The initializer reads the ledger, then the effect runs for the first
    time and writes it back. *)

Definition mount (ls : localStorage.Storage) : option (App.State * localStorage.Storage) :=
  match App.initialState ls with
  | Some st => Some (st, App.persist (App.transactions st) ls)
  | None => None
  end.

(** A session: the events of the user, one after the other. *)
Definition session_run (LocalTZA : Z) (events : list App.event)
           (s : App.State * localStorage.Storage) : App.State * localStorage.Storage :=
  fold_left (fun s e => App.dispatch LocalTZA e s) events s.

(** ** The list of the day in the markup (lines 207-250)

    What the markup computes from [transactionsToday]: whether the button
    that clears the day is there (line 211), whether the message of the
    empty day is (line 223), and one list item per record (lines 227-246):
    its React key, the name, the quantity and the unit price shown, the line
    total [quantity * price] and the event its delete button raises.  The
    amounts are the numbers handed to [formatCurrency]; what
    [Intl.NumberFormat] makes of them is not modelled. *)

Module Markup.

Record Item := {
  key : jsstring;
  itemName : jsstring;
  itemQuantity : Z;
  itemPrice : Z;
  itemTotal : Z;
  onDelete : App.event
}.

Definition item (transaction : Transaction) : Item :=
  {| key := id transaction;
     itemName := name transaction;
     itemQuantity := quantity transaction;
     itemPrice := price transaction;
     itemTotal := quantity transaction * price transaction;
     onDelete := App.DeleteTransaction (id transaction) |}.

Definition list_items (transactionsToday : list Transaction) : list Item :=
  map item transactionsToday.

(** [transactionsToday.length > 0 && ...]. *)
Definition clearButton (transactionsToday : list Transaction) : bool :=
  (0 <? length transactionsToday)%nat.

(** [transactionsToday.length === 0 ? ... : ...]. *)
Definition emptyMessage (transactionsToday : list Transaction) : bool :=
  (length transactionsToday =? 0)%nat.

End Markup.

(** ** Specification notions *)

(** The data model of a record: a quantity of at least one at a price that is
    not negative. *)
Definition valid_transaction (t : Transaction) : Prop :=
  1 <= quantity t /\ 0 <= price t.

(** The reducer of the totals, lines 66-69: one more sale on the
    accumulator. *)
Definition sales (acc : Z) (t : Transaction) : Z := acc + quantity t * price t.

(** The records of the week stamped before today. *)
Definition earlierThisWeek (LocalTZA now : Z) (transactions : list Transaction) :=
  filter (fun t => timestamp t <? startOfToday LocalTZA now)
         (weeklyTransactions LocalTZA now transactions).

(** No two records of the ledger carry the same id. *)
Definition unique_ids (l : list Transaction) : Prop := NoDup (map id l).

(** An answer of [crypto.randomUUID()] that no record of the ledger carries
    yet. *)
Definition fresh (uuid : jsstring) (l : list Transaction) : Prop :=
  ~ In uuid (map id l).

(** [Deletes P l l']: [l'] is [l] with exactly the elements that satisfy [P]
    taken out, the others kept as they are and in their order. *)
Inductive Deletes {A : Type} (P : A -> Prop) : list A -> list A -> Prop :=
| Deletes_nil : Deletes P [] []
| Deletes_drop x l l' : P x -> Deletes P l l' -> Deletes P (x :: l) l'
| Deletes_keep x l l' : ~ P x -> Deletes P l l' -> Deletes P (x :: l) (x :: l').

(** The daily transactions as the specification defines them: a filter of
    the whole ledger. *)
Definition dailyTransactions_spec (LocalTZA now : Z) (transactions : list Transaction) :=
  filter (fun t => timestamp t >=? startOfToday LocalTZA now) transactions.

(** The reducer of the items of the day, line 76. *)
Definition pieces (acc : Z) (t : Transaction) : Z := acc + quantity t.

(** A record as the form makes it: a name that is not empty and has no white
    space around it, a quantity of one at least, a price above zero. *)
Definition from_form (t : Transaction) : Prop :=
  name t <> [] /\ trim (name t) = name t /\ 1 <= quantity t /\ 0 < price t.

(** The ledger from the newest record to the oldest. *)
Fixpoint newest_first (l : list Transaction) : Prop :=
  match l with
  | [] => True
  | t :: l' => (forall u, In u l' -> timestamp u <= timestamp t) /\ newest_first l'
  end.

(** The fields of the form: a quantity that is a number is one at least, a
    price that is a number is not negative. *)
Definition fields_in_range (st : App.State) : Prop :=
  match App.quantity st with Num (Fin q) => 1 <= q | _ => True end
  /\ match App.price st with Num (Fin p) => 0 <= p | _ => True end.

(** The copy in storage is in step with the ledger in memory: a start of the
    component from the storage area finds the ledger. *)
Definition in_step (s : App.State * localStorage.Storage) : Prop :=
  option_map App.transactions (App.initialState (snd s))
  = Some (App.transactions (fst s)).

(** The sum of a column of the list. *)
Definition total (column : list Z) : Z := fold_right Z.add 0 column.

(** [Number.MAX_SAFE_INTEGER], [2^53 - 1]: up to it binary64 holds every
    integer as it is, and [parseInt], [JSON.stringify] and [JSON.parse] read
    and write it digit for digit. *)
Definition MAX_SAFE_INTEGER : Z := 9007199254740991.

(** A record whose numbers are safe integers. *)
Definition representable (t : Transaction) : Prop :=
  Z.abs (quantity t) <= MAX_SAFE_INTEGER
  /\ Z.abs (price t) <= MAX_SAFE_INTEGER
  /\ Z.abs (timestamp t) <= MAX_SAFE_INTEGER.

(** A ledger whose totals are exact in binary64: its records are
    representable, and its amounts and its quantities, taken without their
    sign, add up to safe integers.  Then no product and no partial sum of
    the reducers of lines 65-80 is rounded, whichever records the filters
    keep. *)
Definition exact_totals (l : list Transaction) : Prop :=
  Forall representable l
  /\ total (map (fun t => Z.abs (quantity t * price t)) l) <= MAX_SAFE_INTEGER
  /\ total (map (fun t => Z.abs (quantity t)) l) <= MAX_SAFE_INTEGER.

(** ** Scenarios

    Concrete data: Thursday 14 August 2025, noon, in Western Indonesian Time
    (UTC+7), and the Friday after it. *)

Module Scenario.

Definition WIB : Z := 7 * Date.msPerHour.
Definition thursday : Z := 1755147600000.
Definition friday : Z := thursday + Date.msPerDay.

(** Two today, one yesterday in the same week (section 8 of the
    specification). *)
Definition ledger : list Transaction :=
  [ {| id := lit "b"; name := lit "Kopi Susu"; quantity := 2; price := 18000;
       timestamp := thursday - Date.msPerHour |};
    {| id := lit "a"; name := lit "Teh Manis"; quantity := 1; price := 25000;
       timestamp := thursday - Date.msPerDay |} ].

(** A week total of 8,000,000. *)
Definition week_8m : list Transaction :=
  [ {| id := lit "c"; name := lit "Grosir"; quantity := 1; price := 8000000;
       timestamp := thursday - Date.msPerHour |} ].

Definition form : App.State :=
  {| App.transactions := ledger;
     App.productName := lit "  Es Teh ";
     App.quantity := Num (Fin 3);
     App.price := Num (Fin 5000) |}.

Definition blank_form : App.State :=
  {| App.transactions := ledger;
     App.productName := lit "   ";
     App.quantity := Num (Fin 3);
     App.price := Num (Fin 5000) |}.

Definition storage (items : list (jsstring * jsstring)) : localStorage.Storage :=
  {| localStorage.items := items; localStorage.quota := 5242880 |}.

(** Storage areas: nothing stored, the empty string, a text that is not
    JSON, and texts that are JSON but no ledger. *)
Definition nothing_stored := storage [].
Definition empty_stored := storage [(lit "dailySales", lit "")].
Definition broken_stored := storage [(lit "dailySales", lit "[{bad")].
Definition object_stored := storage [(lit "dailySales", lit "{}")].
Definition null_stored := storage [(lit "dailySales", lit "null")].
Definition numbers_stored := storage [(lit "dailySales", lit "[1, 2]")].

(** The ledger as the component has written it. *)
Definition ledger_stored :=
  storage [(lit "dailySales", JSON.stringify (value_of_ledger ledger))].

(** The Saturday after, noon: the first day of the next week, with a sale
    of the morning on top of the ledger. *)
Definition saturday : Z := thursday + 2 * Date.msPerDay.

Definition weekend : list Transaction :=
  {| id := lit "s"; name := lit "Roti"; quantity := 4; price := 9000;
     timestamp := saturday - Date.msPerHour |} :: ledger.

(** A storage area that holds the setting of another program of the origin,
    and one whose quota the ledger exceeds. *)
Definition shared_stored :=
  storage [(lit "theme", lit "dark"); (lit "dailySales", lit "[]")].

Definition full_stored : localStorage.Storage :=
  {| localStorage.items := [(lit "dailySales", lit "[]")]; localStorage.quota := 16 |}.

End Scenario.

(** * Properties *)

(** ** Strings *)

Lemma str_eqb_spec (a b : jsstring) : reflect (a = b) (str_eqb a b).
Proof.
  revert b; induction a as [|x a IH]; intros [|y b]; simpl;
    try (constructor; congruence).
  destruct (N.eqb_spec x y) as [->|Hxy]; simpl.
  - destruct (IH b) as [->|Hab]; constructor; congruence.
  - constructor; congruence.
Qed.

Lemma str_eqb_refl (a : jsstring) : str_eqb a a = true.
Proof. destruct (str_eqb_spec a a); congruence. Qed.

Lemma truthy_true (s : jsstring) : truthy s = true <-> s <> [].
Proof. destruct s; simpl; split; congruence. Qed.

(** What [trimStart] returns does not start with white space. *)
Lemma trimStart_head (s : jsstring) :
  match trimStart s with
  | [] => True
  | c :: _ => is_white_space c = false
  end.
Proof.
  induction s as [|c s IH]; cbn [trimStart]; [exact I|].
  destruct (is_white_space c) eqn:E; [exact IH | exact E].
Qed.

Lemma trimStart_fixed (s : jsstring) :
  match s with
  | [] => True
  | c :: _ => is_white_space c = false
  end ->
  trimStart s = s.
Proof. destruct s as [|c s]; cbn [trimStart]; [reflexivity|]. now intros ->. Qed.

Lemma trimStart_idempotent (s : jsstring) : trimStart (trimStart s) = trimStart s.
Proof. apply trimStart_fixed, trimStart_head. Qed.

Lemma trimStart_suffix (s : jsstring) : exists w, s = w ++ trimStart s.
Proof.
  induction s as [|c s [w IH]]; [now exists []|].
  cbn [trimStart]. destruct (is_white_space c).
  - exists (c :: w). cbn [app]. now f_equal.
  - now exists [].
Qed.

Lemma trimEnd_prefix (s : jsstring) : exists w, s = trimEnd s ++ w.
Proof.
  destruct (trimStart_suffix (rev s)) as [w E].
  exists (rev w). unfold trimEnd.
  now rewrite <- rev_app_distr, <- E, rev_involutive.
Qed.

(** A trimmed string is left alone by [trim]: the name of a record has no
    white space around it. *)
Lemma trim_idempotent (s : jsstring) : trim (trim s) = trim s.
Proof.
  unfold trim. set (a := trimStart s).
  assert (Hstart : trimStart (trimEnd a) = trimEnd a).
  { apply trimStart_fixed.
    destruct (trimEnd_prefix a) as [w E].
    pose proof (trimStart_head s) as Ha. fold a in Ha.
    destruct (trimEnd a) as [|c b]; [exact I|].
    rewrite E in Ha. exact Ha. }
  rewrite Hstart. unfold trimEnd.
  now rewrite rev_involutive, trimStart_idempotent.
Qed.

(** ** Dates *)

Module DateFacts.
Import Date.

(** The closed formula of [DayFromYear] counts the days of the years. *)
Lemma DayFromYear_succ y : DayFromYear (y + 1) = DayFromYear y + DaysInYear y.
Proof.
  unfold DayFromYear, DaysInYear.
  destruct (Z.eqb_spec (y mod 4) 0), (Z.eqb_spec (y mod 100) 0),
           (Z.eqb_spec (y mod 400) 0);
    cbn [negb andb orb]; Z.to_euclidean_division_equations; lia.
Qed.

Lemma DayFromYear_mono y y' : y <= y' -> DayFromYear y <= DayFromYear y'.
Proof. unfold DayFromYear. Z.to_euclidean_division_equations. lia. Qed.

Lemma year_search_spec fuel : forall y d,
  d < DayFromYear (y + 1) -> DayFromYear (y - Z.of_nat fuel) <= d ->
  DayFromYear (year_search fuel y d) <= d < DayFromYear (year_search fuel y d + 1).
Proof.
  induction fuel as [|f IH]; intros y d Hup Hlow; cbn [year_search].
  - replace (y - Z.of_nat 0) with y in Hlow by lia. lia.
  - destruct (Z.leb_spec (DayFromYear y) d); [lia|].
    apply IH.
    + replace (y - 1 + 1) with y by lia. lia.
    + replace (y - 1 - Z.of_nat f) with (y - Z.of_nat (S f)) by lia. assumption.
Qed.

(** The search finds the year of [t]: the estimate is not too low and the
    fuel is enough, for every time value. *)
Lemma YearFromTime_spec t :
  DayFromYear (YearFromTime t) <= Day t < DayFromYear (YearFromTime t + 1).
Proof.
  unfold YearFromTime. generalize (Day t) as d. intros d.
  apply year_search_spec.
  - unfold DayFromYear. Z.to_euclidean_division_equations. lia.
  - rewrite Z2Nat.id by (Z.to_euclidean_division_equations; lia).
    unfold DayFromYear. Z.to_euclidean_division_equations. lia.
Qed.

(** It is the largest year that starts on or before the day of [t]. *)
Lemma YearFromTime_largest t y : DayFromYear y <= Day t -> y <= YearFromTime t.
Proof.
  intros Hy. pose proof (YearFromTime_spec t) as [_ Hlt].
  destruct (Z.le_gt_cases y (YearFromTime t)) as [|Hgt]; [assumption|].
  pose proof (DayFromYear_mono (YearFromTime t + 1) y ltac:(lia)). lia.
Qed.

Lemma DayWithinYear_range t : 0 <= DayWithinYear t < DaysInYear (YearFromTime t).
Proof.
  pose proof (YearFromTime_spec t). pose proof (DayFromYear_succ (YearFromTime t)).
  unfold DayWithinYear. lia.
Qed.

(** The day of the month is between 1 and 31. *)
Lemma DateFromTime_range t : 1 <= DateFromTime t <= 31.
Proof.
  pose proof (DayWithinYear_range t) as Hd.
  assert (Hy : DaysInYear (YearFromTime t) = 365 + InLeapYear t
               /\ 0 <= InLeapYear t <= 1).
  { unfold InLeapYear, DaysInYear. destruct (_ && _); cbn; lia. }
  unfold DateFromTime, MonthFromTime.
  repeat match goal with
         | |- context [if ?a <? ?b then _ else _] => destruct (Z.ltb_spec a b)
         end; cbn [DaysBeforeMonth]; lia.
Qed.

(** A year is the year of every day from its first to the first of the
    next. *)
Lemma YearFromTime_unique t y :
  DayFromYear y <= Day t < DayFromYear (y + 1) -> YearFromTime t = y.
Proof.
  intros [Hlow Hup]. pose proof (YearFromTime_spec t) as [Hl Hu].
  pose proof (YearFromTime_largest t y Hlow).
  destruct (Z.le_gt_cases (YearFromTime t) y) as [|Hgt]; [lia|].
  pose proof (DayFromYear_mono (y + 1) (YearFromTime t) ltac:(lia)). lia.
Qed.

(** [MakeDay] finds the day it is specified to find: in year [y] and month
    [m], the day whose date is [1]; and so the day of every date after it. *)
Lemma MakeDay_first y m :
  0 <= m <= 11 ->
  let t := MakeDate (MakeDay y m 1) 0 in
  YearFromTime t = y /\ MonthFromTime t = m /\ DateFromTime t = 1.
Proof.
  intros Hm t.
  assert (Hcases : m = 0 \/ m = 1 \/ m = 2 \/ m = 3 \/ m = 4 \/ m = 5 \/ m = 6
                   \/ m = 7 \/ m = 8 \/ m = 9 \/ m = 10 \/ m = 11) by lia.
  assert (Hday : Day t = MakeDay y m 1).
  { unfold t, Day, MakeDate, msPerDay. rewrite Z.add_0_r. apply Z.div_mul. lia. }
  assert (Hmd : MakeDay y m 1
                = DayFromYear y
                  + DaysBeforeMonth m (if DaysInYear y =? 366 then 1 else 0)).
  { unfold MakeDay. rewrite Z.div_small, Z.mod_small, Z.add_0_r by lia. lia. }
  pose proof (DayFromYear_succ y) as Hsucc.
  assert (Hdiy : DaysInYear y = 365 + (if DaysInYear y =? 366 then 1 else 0)
                 /\ 0 <= (if DaysInYear y =? 366 then 1 else 0) <= 1).
  { unfold DaysInYear. destruct (_ && _); cbn; lia. }
  set (leap := if DaysInYear y =? 366 then 1 else 0) in *.
  destruct Hdiy as [Hdiy Hleap].
  assert (Hy : YearFromTime t = y).
  { apply YearFromTime_unique. rewrite Hday, Hmd, Hsucc, Hdiy.
    repeat destruct Hcases as [-> | Hcases]; try subst m; cbn [DaysBeforeMonth]; lia. }
  assert (Hleap' : InLeapYear t = leap).
  { unfold InLeapYear. now rewrite Hy. }
  assert (Hdwy : DayWithinYear t = DaysBeforeMonth m leap).
  { unfold DayWithinYear. rewrite Hy, Hday, Hmd. lia. }
  assert (Hmonth : MonthFromTime t = m).
  { unfold MonthFromTime. rewrite Hdwy, Hleap'.
    repeat destruct Hcases as [-> | Hcases]; try subst m; cbn [DaysBeforeMonth];
      repeat match goal with
             | |- context [if ?a <? ?b then _ else _] => destruct (Z.ltb_spec a b)
             end; lia. }
  split; [exact Hy|]. split; [exact Hmonth|].
  unfold DateFromTime. rewrite Hmonth, Hdwy, Hleap'. lia.
Qed.

Lemma MonthFromTime_range t : 0 <= MonthFromTime t <= 11.
Proof.
  unfold MonthFromTime.
  repeat match goal with
         | |- context [if ?b then _ else _] => destruct b
         end; lia.
Qed.

(** [setDate(getDate() - k)] lands [k] days earlier, whatever the month. *)
Lemma MakeDay_DateFromTime t k :
  MakeDay (YearFromTime t) (MonthFromTime t) (DateFromTime t - k) = Day t - k.
Proof.
  pose proof (MonthFromTime_range t) as Hm.
  unfold MakeDay, DateFromTime, DayWithinYear, InLeapYear.
  rewrite Z.div_small, Z.mod_small, Z.add_0_r by lia.
  lia.
Qed.

Lemma WeekDay_range t : 0 <= WeekDay t < 7.
Proof. unfold WeekDay. apply Z.mod_pos_bound. lia. Qed.

Lemma Day_MakeDate d t : Day (MakeDate d (TimeWithinDay t)) = d.
Proof.
  unfold Day, MakeDate, TimeWithinDay, msPerDay.
  rewrite Z.div_add_l by lia.
  rewrite Z.div_small; [lia | apply Z.mod_pos_bound; lia].
Qed.

Section Local.
Variable LocalTZA : Z.

Lemma LocalTime_UTC t : LocalTime LocalTZA (UTC LocalTZA t) = t.
Proof. unfold LocalTime, UTC. lia. Qed.

Lemma setHours_midnight t :
  setHours LocalTZA t 0 0 0 0 = Day (LocalTime LocalTZA t) * msPerDay - LocalTZA.
Proof. unfold setHours, UTC, MakeDate, MakeTime. lia. Qed.

Lemma setDate_back t k :
  setDate LocalTZA t (getDate LocalTZA t - k)
  = UTC LocalTZA (MakeDate (Day (LocalTime LocalTZA t) - k)
                           (TimeWithinDay (LocalTime LocalTZA t))).
Proof. unfold setDate, getDate. now rewrite MakeDay_DateFromTime. Qed.

(** Midnight is not after the instant it is the midnight of, and less
    than a day before it. *)
Lemma setHours_midnight_bounds t :
  setHours LocalTZA t 0 0 0 0 <= t < setHours LocalTZA t 0 0 0 0 + msPerDay.
Proof.
  rewrite setHours_midnight. unfold Day, LocalTime, msPerDay.
  pose proof (Z.div_mod (t + LocalTZA) 86400000 ltac:(lia)).
  pose proof (Z.mod_pos_bound (t + LocalTZA) 86400000 ltac:(lia)).
  lia.
Qed.

Lemma setHours_midnight_mono t u :
  t <= u -> setHours LocalTZA t 0 0 0 0 <= setHours LocalTZA u 0 0 0 0.
Proof.
  intros Htu. rewrite !setHours_midnight. unfold Day, LocalTime, msPerDay.
  pose proof (Z.div_le_mono (t + LocalTZA) (u + LocalTZA) 86400000
                            ltac:(lia) ltac:(lia)).
  lia.
Qed.
End Local.

End DateFacts.

(** Thursday 14 August 2025, noon in Jakarta; the week started on Saturday
    9 August at midnight there, 17:00 UTC the day before. *)
Example thursday_14_august_2025 :
  let lt := Date.LocalTime Scenario.WIB Scenario.thursday in
  Date.YearFromTime lt = 2025 /\ Date.MonthFromTime lt = 7 /\ Date.DateFromTime lt = 14
  /\ Date.getDay Scenario.WIB Scenario.thursday = 4
  /\ Date.getDay Scenario.WIB Scenario.friday = 5
  /\ startOfToday Scenario.WIB Scenario.thursday = 1755104400000
  /\ startOfWeek Scenario.WIB Scenario.thursday = 1754672400000.
Proof. vm_compute. repeat split. Qed.

(** Going back from the first days of a month lands in the month before:
    from Sunday 1 March 2026 to Saturday 28 February. *)
Example week_across_months :
  let now := 1772341200000 in
  let lt := Date.LocalTime Scenario.WIB (startOfWeek Scenario.WIB now) in
  Date.getDay Scenario.WIB now = 0 /\ Date.getDate Scenario.WIB now = 1
  /\ Date.YearFromTime lt = 2026 /\ Date.MonthFromTime lt = 1
  /\ Date.DateFromTime lt = 28 /\ Date.WeekDay lt = 6.
Proof. vm_compute. repeat split. Qed.

(** ** The week and the day *)

Section Boundaries.
Variable LocalTZA : Z.

Lemma todayDay_range now : 0 <= todayDay LocalTZA now <= 6.
Proof.
  unfold todayDay, Date.getDay.
  pose proof (DateFacts.WeekDay_range (Date.LocalTime LocalTZA now)). lia.
Qed.

(** The days back to the most recent Saturday. *)
Lemma offset_range now : 0 <= offset LocalTZA now <= 6.
Proof.
  pose proof (todayDay_range now). unfold offset.
  destruct (Z.ltb_spec (todayDay LocalTZA now) 6); lia.
Qed.

Lemma offset_saturday now :
  (todayDay LocalTZA now + 1 - offset LocalTZA now) mod 7 = 0.
Proof.
  pose proof (todayDay_range now). unfold offset.
  destruct (Z.ltb_spec (todayDay LocalTZA now) 6).
  - now replace (todayDay LocalTZA now + 1 - (todayDay LocalTZA now + 1)) with 0 by lia.
  - now replace (todayDay LocalTZA now) with 6 by lia.
Qed.

Lemma startOfWeek_startOfToday now :
  startOfWeek LocalTZA now
  = startOfToday LocalTZA now - offset LocalTZA now * Date.msPerDay.
Proof.
  unfold startOfWeek, startOfToday.
  rewrite DateFacts.setDate_back, !DateFacts.setHours_midnight.
  rewrite DateFacts.LocalTime_UTC, DateFacts.Day_MakeDate. lia.
Qed.

Lemma startOfWeek_le_startOfToday now :
  startOfWeek LocalTZA now <= startOfToday LocalTZA now.
Proof.
  rewrite startOfWeek_startOfToday. pose proof (offset_range now).
  unfold Date.msPerDay. lia.
Qed.

(** The week starts on a Saturday. *)
Lemma startOfWeek_is_saturday now :
  todayDay LocalTZA (startOfWeek LocalTZA now) = 6.
Proof.
  pose proof (offset_saturday now) as Hs. pose proof (offset_range now) as Ho.
  pose proof (todayDay_range now) as Hd.
  unfold todayDay, Date.getDay, Date.WeekDay in *.
  rewrite startOfWeek_startOfToday. unfold startOfToday.
  rewrite DateFacts.setHours_midnight.
  set (d := Date.Day (Date.LocalTime LocalTZA now)) in *.
  set (o := offset LocalTZA now) in *.
  unfold Date.LocalTime, Date.Day.
  replace (d * Date.msPerDay - LocalTZA - o * Date.msPerDay + LocalTZA)
    with ((d - o) * Date.msPerDay) by lia.
  rewrite Z.div_mul by (unfold Date.msPerDay; lia).
  pose proof (Z.mod_pos_bound (d - o + 4) 7 ltac:(lia)).
  pose proof (Z.div_mod (d - o + 4) 7 ltac:(lia)).
  pose proof (Z.div_mod (d + 4) 7 ltac:(lia)).
  pose proof (Z.div_mod ((d + 4) mod 7 + 1 - o) 7 ltac:(lia)).
  lia.
Qed.

End Boundaries.

(** ** Lists: filters and deletions *)

Section ListFacts.
Context {A : Type}.

Lemma filter_Deletes (P : A -> Prop) (f : A -> bool) (l : list A) :
  (forall x, f x = false <-> P x) -> Deletes P l (filter f l).
Proof.
  intros Hf. induction l as [|x l IH]; simpl.
  - constructor.
  - destruct (f x) eqn:Hx.
    + apply Deletes_keep; [|exact IH].
      intros HP. apply Hf in HP. congruence.
    + apply Deletes_drop; [|exact IH]. now apply Hf.
Qed.

Lemma Deletes_In (P : A -> Prop) (l l' : list A) :
  Deletes P l l' -> forall x, In x l' <-> In x l /\ ~ P x.
Proof.
  induction 1 as [|y l l' Hy _ IH|y l l' Hy _ IH]; intros x; simpl.
  - tauto.
  - rewrite IH. split; [tauto|]. intros [[->|Hin] Hn]; tauto.
  - rewrite IH. split; [|tauto]. intros [->|[Hin Hn]]; tauto.
Qed.

(** A deletion is determined by the list and the predicate. *)
Lemma Deletes_unique (P : A -> Prop) (l l1 l2 : list A) :
  Deletes P l l1 -> Deletes P l l2 -> l1 = l2.
Proof.
  intros H1. revert l2.
  induction H1 as [|y l l' Hy _ IH|y l l' Hy _ IH]; intros l2 H2;
    inversion H2; subst; try tauto; auto.
  f_equal; auto.
Qed.

Lemma filter_filter_implied (f g : A -> bool) (l : list A) :
  (forall x, g x = true -> f x = true) ->
  filter g (filter f l) = filter g l.
Proof.
  intros Hgf. induction l as [|x l IH]; simpl; [reflexivity|].
  destruct (f x) eqn:Hf; simpl.
  - now rewrite IH.
  - destruct (g x) eqn:Hg; [|exact IH].
    apply Hgf in Hg. congruence.
Qed.

Lemma filter_idempotent (f : A -> bool) (l : list A) :
  filter f (filter f l) = filter f l.
Proof. now apply filter_filter_implied. Qed.

Lemma filter_all (f : A -> bool) (l : list A) :
  (forall x, In x l -> f x = true) -> filter f l = l.
Proof.
  induction l as [|x l IH]; simpl; intros H; [reflexivity|].
  rewrite (H x (or_introl eq_refl)). f_equal. apply IH. auto.
Qed.

End ListFacts.

(** ** Sums of sales *)

Lemma fold_sales_shift (l : list Transaction) (a : Z) :
  fold_left sales l a = a + fold_left sales l 0.
Proof.
  revert a. induction l as [|t l IH]; intros a; cbn [fold_left]; [lia|].
  rewrite (IH (sales a t)), (IH (sales 0 t)).
  assert (sales a t = a + sales 0 t) by (unfold sales; lia). lia.
Qed.

Lemma fold_sales_nonneg (l : list Transaction) :
  Forall (fun t => 0 <= quantity t * price t) l -> 0 <= fold_left sales l 0.
Proof.
  induction 1 as [|t l Ht _ IH]; cbn [fold_left]; [lia|].
  rewrite fold_sales_shift. unfold sales at 1. lia.
Qed.

(** A total splits along a cutoff. *)
Lemma fold_sales_split (c : Z) (l : list Transaction) :
  fold_left sales l 0
  = fold_left sales (filter (fun t => timestamp t >=? c) l) 0
    + fold_left sales (filter (fun t => timestamp t <? c) l) 0.
Proof.
  induction l as [|t l IH]; cbn [filter fold_left]; [reflexivity|].
  rewrite (fold_sales_shift l (sales 0 t)), IH.
  destruct (Z.geb_spec (timestamp t) c), (Z.ltb_spec (timestamp t) c); try lia;
    cbn [fold_left]; rewrite (fold_sales_shift _ (sales 0 t)); lia.
Qed.

Lemma valid_transaction_nonneg (t : Transaction) :
  valid_transaction t -> 0 <= quantity t * price t.
Proof. intros [? ?]. nia. Qed.

Lemma fold_pair_fst (l : list Transaction) (a b : Z) :
  fst (fold_left (fun acc t => (fst acc + quantity t * price t, snd acc + quantity t))
                 l (a, b))
  = fold_left sales l a.
Proof. revert a b. induction l as [|t l IH]; intros a b; simpl; [reflexivity|apply IH]. Qed.

Lemma Forall_filter {A : Type} (P : A -> Prop) (f : A -> bool) (l : list A) :
  Forall P l -> Forall P (filter f l).
Proof.
  rewrite !Forall_forall. intros H x Hx. apply filter_In in Hx. apply H, Hx.
Qed.

(** ** The summary *)

Section SummaryFacts.
Variable LocalTZA : Z.

Lemma weekTotals_sales now l :
  weekTotals LocalTZA now l = fold_left sales (weeklyTransactions LocalTZA now l) 0.
Proof. reflexivity. Qed.

Lemma totalSalesToday_sales now clock l :
  totalSalesToday (summary2 LocalTZA now clock l)
  = fold_left sales (dailyTransactions LocalTZA now clock l) 0.
Proof. unfold summary2, dayTotals; simpl. apply fold_pair_fst. Qed.

(** With a clock that does not run backwards between the two readings,
    the daily transactions are those of the whole ledger since midnight. *)
Lemma dailyTransactions_two_readings now clock l :
  now <= clock ->
  dailyTransactions LocalTZA now clock l = dailyTransactions_spec LocalTZA clock l.
Proof.
  intros Hle. unfold dailyTransactions, dailyTransactions_spec, weeklyTransactions.
  apply filter_filter_implied. intros t Ht. unfold Date.getTime in *.
  pose proof (startOfWeek_le_startOfToday LocalTZA now).
  pose proof (DateFacts.setHours_midnight_mono LocalTZA now clock Hle).
  unfold startOfToday in *. lia.
Qed.

End SummaryFacts.

(** ** The warning *)

(** C1. The warning shows exactly when the local weekday is Thursday (index 4)
    and the total of the week is below the target of 9,000,000; with a week
    total of 8,000,000 it shows on a Thursday and not on a Friday. *)
Theorem showWarning_thursday_below_target (LocalTZA now : Z) (l : list Transaction) :
  (showWarning (summary LocalTZA now l) = true
   <-> todayDay LocalTZA now = 4
       /\ totalSalesThisWeek (summary LocalTZA now l) < 9000000)
  /\ (totalSalesThisWeek (summary LocalTZA now l) = 8000000 ->
      todayDay LocalTZA now = 4 -> showWarning (summary LocalTZA now l) = true)
  /\ (totalSalesThisWeek (summary LocalTZA now l) = 8000000 ->
      todayDay LocalTZA now = 5 -> showWarning (summary LocalTZA now l) = false).
Proof.
  cbn [summary summary2 showWarning totalSalesThisWeek].
  unfold shouldShowWarning, isThursday, WEEKLY_TARGET.
  split; [|split].
  - rewrite andb_true_iff, Z.eqb_eq, Z.ltb_lt. reflexivity.
  - intros -> ->. reflexivity.
  - intros _ ->. reflexivity.
Qed.

Lemma showWarning_thursday_below_target_witness :
  showWarning (summary Scenario.WIB Scenario.thursday Scenario.week_8m) = true
  /\ showWarning (summary Scenario.WIB Scenario.friday Scenario.week_8m) = false.
Proof.
  split.
  - apply (showWarning_thursday_below_target
             Scenario.WIB Scenario.thursday Scenario.week_8m); reflexivity.
  - apply (showWarning_thursday_below_target
             Scenario.WIB Scenario.friday Scenario.week_8m); reflexivity.
Defined.

(** ** Adding a transaction *)

(** C2. A name that does not trim to the empty string with a positive
    quantity and a positive price adds one record at the head of the ledger:
    the generated id, the trimmed name, the quantity, the price and the
    current instant; the ledger that was there follows it unchanged. *)
Theorem handleAddTransaction_valid
        (uuid : jsstring) (now : Z) (st : App.State) (q p : Z) :
  trim (App.productName st) <> [] ->
  Number (App.quantity st) = Fin q -> 0 < q ->
  Number (App.price st) = Fin p -> 0 < p ->
  App.transactions (App.handleAddTransaction uuid now st)
  = {| id := uuid; name := trim (App.productName st);
       quantity := q; price := p; timestamp := now |} :: App.transactions st
  /\ length (App.transactions (App.handleAddTransaction uuid now st))
     = S (length (App.transactions st)).
Proof.
  intros Hname Hq Hq0 Hp Hp0. unfold App.handleAddTransaction.
  apply truthy_true in Hname. rewrite Hname, Hq, Hp. cbn [gt0].
  apply Z.ltb_lt in Hq0, Hp0. rewrite Hq0, Hp0. cbn. split; reflexivity.
Qed.

Lemma handleAddTransaction_valid_witness :
  App.transactions
    (App.handleAddTransaction (lit "id-1") Scenario.thursday Scenario.form)
  = {| id := lit "id-1"; name := lit "Es Teh"; quantity := 3; price := 5000;
       timestamp := Scenario.thursday |} :: Scenario.ledger
  /\ length (App.transactions
               (App.handleAddTransaction (lit "id-1") Scenario.thursday Scenario.form))
     = 3%nat.
Proof.
  apply (handleAddTransaction_valid (lit "id-1") Scenario.thursday Scenario.form 3 5000);
    [discriminate | reflexivity | lia | reflexivity | lia].
Defined.

(** C3. A name that trims to the empty string, a quantity that is not
    positive or a price that is not positive leaves the state, and with it
    the ledger, as it was; the handler is a total function and raises
    nothing. *)
Theorem handleAddTransaction_invalid (uuid : jsstring) (now : Z) (st : App.State) :
  trim (App.productName st) = []
  \/ (exists q, Number (App.quantity st) = Fin q /\ q <= 0)
  \/ (exists p, Number (App.price st) = Fin p /\ p <= 0) ->
  App.handleAddTransaction uuid now st = st
  /\ App.transactions (App.handleAddTransaction uuid now st) = App.transactions st.
Proof.
  intros H.
  assert (E : App.handleAddTransaction uuid now st = st).
  { unfold App.handleAddTransaction.
    destruct H as [Hn | [(q & Hq & Hq0) | (p & Hp & Hp0)]].
    - rewrite Hn. reflexivity.
    - rewrite Hq. cbn [gt0]. apply Z.ltb_ge in Hq0. rewrite Hq0.
      now rewrite andb_false_r.
    - rewrite Hp. cbn [gt0]. apply Z.ltb_ge in Hp0. rewrite Hp0.
      now rewrite andb_false_r. }
  now rewrite E.
Qed.

Lemma handleAddTransaction_invalid_witness :
  App.handleAddTransaction (lit "id-1") Scenario.thursday Scenario.blank_form
  = Scenario.blank_form
  /\ App.transactions
       (App.handleAddTransaction (lit "id-1") Scenario.thursday Scenario.blank_form)
     = Scenario.ledger.
Proof.
  apply (handleAddTransaction_invalid (lit "id-1") Scenario.thursday Scenario.blank_form).
  left. reflexivity.
Defined.

(** The record that is added respects the data model: a name that is not
    empty and has no white space around it, a quantity of one at least, a
    price that is not negative. *)
Lemma handleAddTransaction_data_model
      (uuid : jsstring) (now : Z) (st : App.State) (t : Transaction) :
  App.transactions (App.handleAddTransaction uuid now st) = t :: App.transactions st ->
  name t <> [] /\ trim (name t) = name t /\ valid_transaction t
  /\ id t = uuid /\ timestamp t = now.
Proof.
  unfold App.handleAddTransaction.
  destruct (truthy (trim (App.productName st))) eqn:Hn.
  2: { intros E. apply (f_equal (@length _)) in E. cbn in E. lia. }
  destruct (Number (App.quantity st)) as [q|];
    [| intros E; apply (f_equal (@length _)) in E; cbn in E; lia].
  destruct (Number (App.price st)) as [p|];
    [| rewrite andb_false_r; intros E; apply (f_equal (@length _)) in E; cbn in E; lia].
  cbn [gt0 andb].
  destruct (Z.ltb_spec 0 q);
    [| intros E; apply (f_equal (@length _)) in E; cbn in E; lia].
  destruct (Z.ltb_spec 0 p);
    [| intros E; apply (f_equal (@length _)) in E; cbn in E; lia].
  cbn [App.transactions]. intros [= <-].
  unfold valid_transaction, newTransaction. cbn [name quantity price id timestamp].
  apply truthy_true in Hn.
  repeat split; [assumption | apply trim_idempotent | lia | lia].
Qed.

(** [NaN] and the empty input are rejected as well. *)
Lemma handleAddTransaction_not_positive (uuid : jsstring) (now : Z) (st : App.State) :
  gt0 (Number (App.quantity st)) = false \/ gt0 (Number (App.price st)) = false ->
  App.handleAddTransaction uuid now st = st.
Proof.
  unfold App.handleAddTransaction. intros [-> | ->];
    now rewrite ?andb_false_r.
Qed.

(** ** Day and week *)

(** The sales of the week are the sales of the day and the sales of the
    earlier days of the week. *)
Lemma week_is_day_and_earlier (LocalTZA now : Z) (l : list Transaction) :
  totalSalesThisWeek (summary LocalTZA now l)
  = totalSalesToday (summary LocalTZA now l)
    + fold_left sales (earlierThisWeek LocalTZA now l) 0.
Proof.
  unfold summary. rewrite totalSalesToday_sales.
  cbn [summary2 totalSalesThisWeek]. rewrite weekTotals_sales.
  apply fold_sales_split.
Qed.

Lemma day_le_week (LocalTZA now : Z) (l : list Transaction) :
  Forall (fun t => 0 <= quantity t * price t) (earlierThisWeek LocalTZA now l) ->
  totalSalesToday (summary LocalTZA now l) <= totalSalesThisWeek (summary LocalTZA now l).
Proof.
  intros H. rewrite week_is_day_and_earlier.
  pose proof (fold_sales_nonneg _ H). lia.
Qed.

Lemma valid_earlierThisWeek (LocalTZA now : Z) (l : list Transaction) :
  Forall valid_transaction l ->
  Forall (fun t => 0 <= quantity t * price t) (earlierThisWeek LocalTZA now l).
Proof.
  intros H. unfold earlierThisWeek, weeklyTransactions.
  do 2 apply Forall_filter.
  eapply Forall_impl; [|exact H]. apply valid_transaction_nonneg.
Qed.

(** C6. The transactions of the day are among the transactions of the week,
    for every ledger and every instant; and on a ledger whose records respect
    the data model (a quantity of one at least, a price that is not negative)
    the sales of the day do not exceed the sales of the week. *)
Theorem daily_within_weekly (LocalTZA now : Z) (l : list Transaction) :
  incl (transactionsToday (summary LocalTZA now l)) (weeklyTransactions LocalTZA now l)
  /\ (Forall valid_transaction l ->
      totalSalesToday (summary LocalTZA now l)
      <= totalSalesThisWeek (summary LocalTZA now l)).
Proof.
  split.
  - intros t Ht. cbn in Ht. unfold dailyTransactions in Ht.
    apply filter_In in Ht. apply Ht.
  - intros Hl. now apply day_le_week, valid_earlierThisWeek.
Qed.

Lemma daily_within_weekly_witness :
  totalSalesToday (summary Scenario.WIB Scenario.thursday Scenario.ledger) = 36000
  /\ totalSalesThisWeek (summary Scenario.WIB Scenario.thursday Scenario.ledger) = 61000
  /\ totalSalesToday (summary Scenario.WIB Scenario.thursday Scenario.ledger)
     <= totalSalesThisWeek (summary Scenario.WIB Scenario.thursday Scenario.ledger).
Proof.
  split; [reflexivity|]. split; [reflexivity|].
  pose proof (daily_within_weekly Scenario.WIB Scenario.thursday Scenario.ledger)
    as (_ & Hvalid).
  apply Hvalid. repeat constructor; vm_compute; discriminate.
Defined.

(** The scenario of the specification: two items and 36,000 today, 61,000
    this week. *)
Example scenario_totals :
  let s := summary Scenario.WIB Scenario.thursday Scenario.ledger in
  totalItemsToday s = 2 /\ totalSalesToday s = 36000 /\ totalSalesThisWeek s = 61000.
Proof. repeat split. Qed.

(** C9. The week does not start after the day, so the daily transactions the
    code computes, a filter of the weekly ones, are those of the
    specification, a filter of the whole ledger. *)
Theorem dailyTransactions_refines_spec (LocalTZA now : Z) (l : list Transaction) :
  startOfWeek LocalTZA now <= startOfToday LocalTZA now
  /\ transactionsToday (summary LocalTZA now l) = dailyTransactions_spec LocalTZA now l.
Proof.
  split.
  - apply startOfWeek_le_startOfToday.
  - cbn. apply dailyTransactions_two_readings. lia.
Qed.

(** ** Clearing the day *)

Lemma clearUpTo_Deletes (cutoff : Z) (l : list Transaction) :
  Deletes (fun t => timestamp t >= cutoff) l (clearUpTo cutoff l).
Proof. apply filter_Deletes. intros t. rewrite Z.ltb_ge. lia. Qed.

Lemma weeklyTransactions_In (LocalTZA now : Z) (l : list Transaction) (t : Transaction) :
  In t (weeklyTransactions LocalTZA now l)
  <-> In t l /\ startOfWeek LocalTZA now <= timestamp t.
Proof.
  unfold weeklyTransactions, Date.getTime. rewrite filter_In.
  destruct (Z.geb_spec (timestamp t) (startOfWeek LocalTZA now));
    split; intros [? ?]; split; auto; try lia; discriminate.
Qed.

(** C7. Clearing with a cutoff takes out exactly the records stamped at or
    after the cutoff; the records stamped before it stay, unchanged and in
    their order.  The handler, once confirmed, clears with the local midnight
    of the current day: the records of today go and the earlier records of
    the week stay. *)
Theorem clearUpTo_removes_from_cutoff
        (cutoff : Z) (l : list Transaction) (LocalTZA clock : Z) (st : App.State) :
  Deletes (fun t => timestamp t >= cutoff) l (clearUpTo cutoff l)
  /\ (forall t, In t (clearUpTo cutoff l) <-> In t l /\ timestamp t < cutoff)
  /\ Deletes (fun t => timestamp t >= startOfToday LocalTZA clock)
             (App.transactions st)
             (App.transactions (App.handleClearAll LocalTZA true clock st))
  /\ (forall t, In t (weeklyTransactions LocalTZA clock (App.transactions st)) ->
                timestamp t < startOfToday LocalTZA clock ->
                In t (weeklyTransactions
                        LocalTZA clock
                        (App.transactions (App.handleClearAll LocalTZA true clock st)))).
Proof.
  assert (Hin : forall c l' t, In t (clearUpTo c l') <-> In t l' /\ timestamp t < c).
  { intros c l' t. rewrite (Deletes_In _ _ _ (clearUpTo_Deletes c l')).
    split; intros [? ?]; split; auto; lia. }
  split; [apply clearUpTo_Deletes|]. split; [apply Hin|].
  split; [apply clearUpTo_Deletes|].
  intros t Ht Hlt. cbn [App.handleClearAll App.setTransactions App.transactions].
  unfold Date.getTime. apply weeklyTransactions_In in Ht.
  apply weeklyTransactions_In. split; [apply Hin|]; tauto.
Qed.

(** Yesterday's record of the scenario survives the clearing of today. *)
Lemma clearUpTo_removes_from_cutoff_witness :
  In (newTransaction (lit "a") (lit "Teh Manis") 1 25000
                     (Scenario.thursday - Date.msPerDay))
     (weeklyTransactions
        Scenario.WIB Scenario.thursday
        (App.transactions
           (App.handleClearAll Scenario.WIB true Scenario.thursday Scenario.form))).
Proof.
  pose proof (clearUpTo_removes_from_cutoff
                0 [] Scenario.WIB Scenario.thursday Scenario.form)
    as (_ & _ & _ & Hweek).
  apply Hweek.
  - vm_compute. right; left; reflexivity.
  - vm_compute. reflexivity.
Defined.

Example handleClearAll_scenario :
  App.transactions
    (App.handleClearAll Scenario.WIB true Scenario.thursday Scenario.form)
  = [newTransaction (lit "a") (lit "Teh Manis") 1 25000
                    (Scenario.thursday - Date.msPerDay)].
Proof. reflexivity. Qed.

(** Without the confirmation nothing is cleared. *)
Lemma handleClearAll_declined (LocalTZA clock : Z) (st : App.State) :
  App.handleClearAll LocalTZA false clock st = st.
Proof. reflexivity. Qed.

(** After a confirmed clearing the day is empty and the week has lost the
    day only. *)
Lemma handleClearAll_summary (LocalTZA now : Z) (st : App.State) :
  let l' := App.transactions (App.handleClearAll LocalTZA true now st) in
  transactionsToday (summary LocalTZA now l') = []
  /\ weeklyTransactions LocalTZA now l'
     = clearUpTo (startOfToday LocalTZA now)
                 (weeklyTransactions LocalTZA now (App.transactions st)).
Proof.
  cbn. unfold dailyTransactions, weeklyTransactions, clearUpTo, Date.getTime.
  generalize (App.transactions st) as l.
  induction l as [|t l [IH1 IH2]]; [split; reflexivity|].
  cbn [filter].
  destruct (Z.ltb_spec (timestamp t) (startOfToday LocalTZA now)) as [Hlt|Hge];
    cbn [filter].
  - destruct (Z.geb_spec (timestamp t) (startOfWeek LocalTZA now)); cbn [filter].
    + destruct (Z.geb_spec (timestamp t) (startOfToday LocalTZA now)); [lia|].
      destruct (Z.ltb_spec (timestamp t) (startOfToday LocalTZA now)); [|lia].
      split; [exact IH1 | now rewrite IH2].
    + split; [exact IH1 | exact IH2].
  - pose proof (startOfWeek_le_startOfToday LocalTZA now).
    destruct (Z.geb_spec (timestamp t) (startOfWeek LocalTZA now)); [|lia].
    cbn [filter].
    destruct (Z.ltb_spec (timestamp t) (startOfToday LocalTZA now)); [lia|].
    split; [exact IH1 | exact IH2].
Qed.

(** ** Deleting a transaction *)

Lemma handleDeleteTransaction_transactions (id0 : jsstring) (st : App.State) :
  App.transactions (App.handleDeleteTransaction id0 st)
  = filter (fun t => negb (str_eqb (id t) id0)) (App.transactions st).
Proof. reflexivity. Qed.

Lemma setTransactions_same (st : App.State) :
  App.setTransactions (App.transactions st) st = st.
Proof. now destruct st. Qed.

(** C8. Deleting by an id twice is deleting by it once, and deleting by an id
    no record carries leaves the state as it was. *)
Theorem handleDeleteTransaction_idempotent (id0 : jsstring) (st : App.State) :
  App.handleDeleteTransaction id0 (App.handleDeleteTransaction id0 st)
  = App.handleDeleteTransaction id0 st
  /\ ((forall t, In t (App.transactions st) -> id t <> id0) ->
      App.handleDeleteTransaction id0 st = st).
Proof.
  split.
  - unfold App.handleDeleteTransaction, App.setTransactions. cbn.
    now rewrite filter_idempotent.
  - intros Habs. unfold App.handleDeleteTransaction.
    rewrite filter_all; [apply setTransactions_same|].
    intros t Ht. destruct (str_eqb_spec (id t) id0) as [E|_]; [|reflexivity].
    now apply Habs in Ht.
Qed.

Lemma handleDeleteTransaction_idempotent_witness :
  App.handleDeleteTransaction (lit "zz") Scenario.form = Scenario.form.
Proof.
  apply (handleDeleteTransaction_idempotent (lit "zz") Scenario.form).
  intros t [<- | [<- | []]]; discriminate.
Defined.

(** C10. Deleting by an id takes out every record that carries the id, also
    when several do, and keeps every other record, unchanged and in its
    order. *)
Theorem handleDeleteTransaction_frame (id0 : jsstring) (st : App.State) :
  Deletes (fun t => id t = id0) (App.transactions st)
          (App.transactions (App.handleDeleteTransaction id0 st))
  /\ (forall t, In t (App.transactions (App.handleDeleteTransaction id0 st))
                <-> In t (App.transactions st) /\ id t <> id0)
  /\ App.productName (App.handleDeleteTransaction id0 st) = App.productName st
  /\ App.quantity (App.handleDeleteTransaction id0 st) = App.quantity st
  /\ App.price (App.handleDeleteTransaction id0 st) = App.price st.
Proof.
  assert (D : Deletes (fun t => id t = id0) (App.transactions st)
                (App.transactions (App.handleDeleteTransaction id0 st))).
  { rewrite handleDeleteTransaction_transactions. apply filter_Deletes.
    intros t. destruct (str_eqb_spec (id t) id0); simpl; split; congruence. }
  split; [exact D|]. split; [|repeat split].
  intros t. apply (Deletes_In _ _ _ D).
Qed.

Lemma handleDeleteTransaction_frame_witness :
  In (newTransaction (lit "a") (lit "Teh Manis") 1 25000
                     (Scenario.thursday - Date.msPerDay))
     (App.transactions (App.handleDeleteTransaction (lit "b") Scenario.form)).
Proof.
  apply (handleDeleteTransaction_frame (lit "b") Scenario.form).
  split; [right; left; reflexivity | discriminate].
Defined.

(** A ledger with a duplicated id loses both records. *)
Example handleDeleteTransaction_duplicates :
  let t1 := newTransaction (lit "x") (lit "Kopi") 1 18000 10 in
  let t2 := newTransaction (lit "y") (lit "Teh") 2 5000 20 in
  let t3 := newTransaction (lit "x") (lit "Roti") 1 9000 30 in
  App.transactions
    (App.handleDeleteTransaction (lit "x")
       {| App.transactions := [t1; t2; t3]; App.productName := [];
          App.quantity := Num (Fin 1); App.price := Empty |})
  = [t2].
Proof. reflexivity. Qed.

(** ** JSON: the text [JSON.stringify] writes is read back by [JSON.parse] *)

Module JSONFacts.
Import JSON.

Lemma run_app (st : state) (a b : jsstring) : run st (a ++ b) = run (run st a) b.
Proof. apply fold_left_app. Qed.

Lemma run_cons (st : state) (c : code_unit) (s : jsstring) :
  run st (c :: s) = run (step st c) s.
Proof. reflexivity. Qed.

(** *** The reader and the writer at work *)

Example parse_array :
  parse (lit " [1, 2.5e3, -0.125, true, null, []] ")
  = Normal (JArray [JNumber (Int 1); JNumber (Int 2500); JNumber (Dec (-125) 3);
                    JBool true; JNull; JArray []]).
Proof. reflexivity. Qed.

(** Keys that are array indices come first; a key defined again keeps its
    place and takes the later value. *)
Example parse_object :
  parse ([123; 34; 98; 34; 58; 49; 44;  34; 50; 34; 58; 50; 44;
          34; 98; 34; 58; 51; 125]%N)
  = Normal (JObject [([50%N], JNumber (Int 2)); ([98%N], JNumber (Int 3))]).
Proof. reflexivity. Qed.

Example parse_escapes :
  parse ([34; 92; 117; 48; 48; 101; 57; 92; 110; 92; 47; 34]%N)
  = Normal (JString [233; 10; 47]%N).
Proof. reflexivity. Qed.

Example parse_rejects :
  parse (lit "") = Throw SyntaxError
  /\ parse (lit "[1,2") = Throw SyntaxError
  /\ parse (lit "[1,]") = Throw SyntaxError
  /\ parse (lit "01") = Throw SyntaxError
  /\ parse (lit "1.") = Throw SyntaxError
  /\ parse (lit "nul") = Throw SyntaxError
  /\ parse (lit "{a:1}") = Throw SyntaxError
  /\ parse (lit "[] []") = Throw SyntaxError.
Proof. repeat split. Qed.

Example NumberToString_formats :
  NumberToString (Int 18000) = lit "18000"
  /\ NumberToString (Int (-42)) = lit "-42"
  /\ NumberToString (Int (10 ^ 21)) = lit "1e+21"
  /\ NumberToString (Int (123 * 10 ^ 23)) = lit "1.23e+25"
  /\ NumberToString (Dec 123456 3) = lit "123.456"
  /\ NumberToString (Dec (-15) 7) = lit "-0.0000015"
  /\ NumberToString (Dec 15 8) = lit "1.5e-7".
Proof. repeat split. Qed.

Example parse_NumberToString_large :
  parse (NumberToString (Int (- (123 * 10 ^ 23)))) = Normal (JNumber (Int (- (123 * 10 ^ 23)))).
Proof. vm_compute. reflexivity. Qed.

(** *** Digits *)

Lemma log2_div10 (n : N) : (10 <= n -> N.log2 (n / 10) < N.log2 n)%N.
Proof.
  intros Hn.
  assert (H2 : (n / 10 <= n / 2)%N).
  { apply N.div_le_compat_l; lia. }
  assert (H1 : (N.log2 (n / 2) < N.log2 n)%N).
  { rewrite <- N.div2_div, N.div2_spec, N.log2_shiftr.
    assert (0 < N.log2 n)%N by (apply N.log2_pos; lia). lia. }
  pose proof (N.log2_le_mono _ _ H2). lia.
Qed.

Lemma digits_aux_digits (f : nat) :
  forall n acc, (N.to_nat (N.log2 n) < f)%nat -> digits_aux f n acc = digits n ++ acc.
Proof.
  induction f as [f IH] using lt_wf_ind. intros n acc Hf.
  destruct f as [|f]; [lia|].
  unfold digits. cbn [digits_aux].
  destruct (N.eqb_spec (n / 10) 0) as [E|E]; [reflexivity|].
  assert (Hn : (10 <= n)%N).
  { destruct (N.le_gt_cases 10 n) as [?|Hlt]; [assumption|].
    apply N.div_small in Hlt. contradiction. }
  pose proof (log2_div10 n Hn).
  rewrite (IH f) by lia.
  rewrite (IH (N.to_nat (N.log2 n))) by lia.
  now rewrite <- app_assoc.
Qed.

Lemma digits_small (n : N) : (n < 10)%N -> digits n = [(48 + n)%N].
Proof.
  intros Hn. unfold digits. cbn [digits_aux].
  rewrite (N.div_small n 10 Hn), (N.mod_small n 10 Hn). reflexivity.
Qed.

Lemma digits_step (n : N) :
  (10 <= n)%N -> digits n = digits (n / 10) ++ [(48 + n mod 10)%N].
Proof.
  intros Hn. unfold digits at 1. cbn [digits_aux].
  destruct (N.eqb_spec (n / 10) 0) as [E|E].
  - apply N.div_small_iff in E; lia.
  - pose proof (log2_div10 n Hn). apply digits_aux_digits. lia.
Qed.

(** Induction on the decimal digits of a number. *)
Lemma digits_ind (P : N -> Prop) :
  (forall n, (n < 10)%N -> P n) ->
  (forall n, (10 <= n)%N -> P (n / 10)%N -> P n) ->
  forall n, P n.
Proof.
  intros Hsmall Hstep n.
  induction n as [n IH] using (well_founded_induction N.lt_wf_0).
  destruct (N.lt_ge_cases n 10) as [Hlt|Hge]; [now apply Hsmall|].
  apply Hstep; [assumption|]. apply IH.
  apply N.div_lt; lia.
Qed.

Lemma is_digit_48 (d : N) : (d < 10)%N -> is_digit (48 + d)%N = true.
Proof.
  intros Hd. unfold is_digit.
  apply andb_true_intro; split; apply N.leb_le; lia.
Qed.

Lemma digits_value_app (a b : jsstring) (acc : N) :
  digits_value (a ++ b) acc
  = match digits_value a acc with
    | Some m => digits_value b m
    | None => None
    end.
Proof.
  revert acc. induction a as [|c a IH]; intros acc; cbn [digits_value app];
    [reflexivity|].
  destruct (is_digit c); [apply IH|reflexivity].
Qed.

Lemma digits_value_digits (n : N) : digits_value (digits n) 0 = Some n.
Proof.
  induction n as [n Hn|n Hn IH] using digits_ind.
  - rewrite digits_small by assumption. cbn [digits_value].
    rewrite is_digit_48 by assumption. f_equal. lia.
  - rewrite digits_step, digits_value_app, IH by assumption. cbn [digits_value].
    pose proof (N.mod_lt n 10 ltac:(lia)).
    rewrite is_digit_48 by lia. f_equal.
    pose proof (N.div_mod n 10 ltac:(lia)) as E.
    revert E H. generalize (n / 10)%N (n mod 10)%N. intros; lia.
Qed.

(** A positive number is written without a leading zero. *)
Lemma digits_head (n : N) :
  (0 < n)%N -> exists c ds, digits n = c :: ds /\ is_digit c = true /\ c <> 48%N.
Proof.
  induction n as [n Hn|n Hn IH] using digits_ind; intros Hpos.
  - rewrite digits_small by assumption. exists (48 + n)%N, [].
    repeat split; [now apply is_digit_48 | lia].
  - destruct IH as (c & ds & E & Hc & Hc0).
    { apply N.div_str_pos; lia. }
    rewrite digits_step, E by assumption.
    exists c, (ds ++ [(48 + n mod 10)%N]). auto.
Qed.

Lemma to_string_pos_plain (s : N) (e : Z) :
  0 <= e -> (length (digits s) + Z.to_nat e <= 21)%nat ->
  to_string_pos s e = digits s ++ repeat 48%N (Z.to_nat e).
Proof.
  intros He Hlen. unfold to_string_pos.
  set (k := Z.of_nat (length (digits s))).
  assert (Hk : (k <=? k + e) && (k + e <=? 21) = true).
  { apply andb_true_intro; split; apply Z.leb_le; lia. }
  rewrite Hk. now replace (k + e - k) with e by lia.
Qed.

Lemma digits_cons (n : N) : exists c ds, digits n = c :: ds.
Proof.
  destruct (N.lt_ge_cases n 10) as [Hlt|Hge].
  - rewrite digits_small by assumption. now eexists _, _.
  - rewrite digits_step by assumption.
    destruct (digits (n / 10)) as [|c ds]; cbn [app]; now eexists _, _.
Qed.

Lemma digits_value_zeros (n : nat) (m : N) :
  digits_value (repeat 48%N n) m = Some (m * 10 ^ N.of_nat n)%N.
Proof.
  revert m. induction n as [|n IH]; intros m; cbn [repeat digits_value].
  - f_equal. change (10 ^ N.of_nat 0)%N with 1%N. lia.
  - change (is_digit 48) with true. cbn match. rewrite IH. f_equal.
    replace (N.of_nat (S n)) with (N.succ (N.of_nat n)) by lia.
    rewrite N.pow_succ_r'. lia.
Qed.

Lemma strip_zeros_le (fuel : nat) :
  forall s e s' e', strip_zeros fuel s e = (s', e') -> e <= e'.
Proof.
  induction fuel as [|f IH]; intros s e s' e'; cbn [strip_zeros].
  - intros [= <- <-]. lia.
  - destruct (N.eqb (s mod 10) 0); [|intros [= <- <-]; lia].
    intros E. apply IH in E. lia.
Qed.

Lemma strip_zeros_value (fuel : nat) :
  forall s e s' e', strip_zeros fuel s e = (s', e') ->
    Z.of_N s = Z.of_N s' * 10 ^ (e' - e).
Proof.
  induction fuel as [|f IH]; intros s e s' e'; cbn [strip_zeros].
  - intros [= <- <-]. rewrite Z.sub_diag. cbn. lia.
  - destruct (N.eqb_spec (s mod 10) 0) as [Hmod|Hmod].
    + intros E. pose proof (IH _ _ _ _ E) as Hv.
      assert (He : e + 1 <= e').
      { clear -E. revert E. generalize (s / 10)%N (e + 1). clear.
        induction f as [|f IH]; intros s e; cbn [strip_zeros].
        - intros [= <- <-]. lia.
        - destruct (N.eqb (s mod 10) 0); [|intros [= <- <-]; lia].
          intros E. apply IH in E. lia. }
      replace (e' - e) with (Z.succ (e' - (e + 1))) by lia.
      rewrite Z.pow_succ_r by lia.
      pose proof (N.div_mod s 10 ltac:(lia)) as Hdm. rewrite Hmod in Hdm.
      assert (Z.of_N s = 10 * Z.of_N (s / 10)) by (revert Hdm; generalize (s / 10)%N; intros; lia).
      lia.
    + intros [= <- <-]. rewrite Z.sub_diag. cbn. lia.
Qed.

Lemma to_string_pos_exponent (s : N) (e : Z) :
  0 <= e -> 21 < Z.of_nat (length (digits s)) + e ->
  to_string_pos s e
  = let ex := [101; 43]%N
                ++ digits (Z.to_N (Z.of_nat (length (digits s)) + e - 1)) in
    match digits s with
    | [] => []
    | [d] => d :: ex
    | d :: ds' => d :: 46%N :: ds' ++ ex
    end.
Proof.
  intros He Hn. unfold to_string_pos.
  set (k := Z.of_nat (length (digits s))) in *.
  replace (k + e <=? 21) with false by (symmetry; apply Z.leb_gt; lia).
  replace (k + e <=? 0) with false by (symmetry; apply Z.leb_gt; lia).
  rewrite !andb_false_r.
  replace (k + e - 1 <? 0) with false by (symmetry; apply Z.ltb_ge; lia).
  now replace (Z.abs (k + e - 1)) with (k + e - 1) by lia.
Qed.

(** *** Strings *)

Lemma step_Str_raw (acc : jsstring) (k : string_end) (c : code_unit) :
  c <> 34%N -> c <> 92%N -> (32 <= c)%N -> step (Str acc k) c = Str (c :: acc) k.
Proof.
  intros H34 H92 H32. cbn [step].
  apply N.eqb_neq in H34, H92. apply N.ltb_ge in H32.
  now rewrite H34, H92, H32.
Qed.

Lemma hex_value_hex_digit (n : N) : (n < 16)%N -> hex_value (hex_digit n) = Some n.
Proof.
  intros Hn. unfold hex_value, hex_digit, is_digit.
  destruct (N.ltb_spec n 10).
  - replace (N.leb 48 (48 + n)) with true by (symmetry; apply N.leb_le; lia).
    replace (N.leb (48 + n) 57) with true by (symmetry; apply N.leb_le; lia).
    cbn [andb]. f_equal. lia.
  - replace (N.leb (87 + n) 57) with false by (symmetry; apply N.leb_gt; lia).
    rewrite andb_false_r.
    replace (N.leb 97 (87 + n)) with true by (symmetry; apply N.leb_le; lia).
    replace (N.leb (87 + n) 102) with true by (symmetry; apply N.leb_le; lia).
    cbn [andb]. f_equal. lia.
Qed.

Lemma hex_quads (c : N) :
  (c < 65536)%N ->
  ((((0 * 16 + c / 4096 mod 16) * 16 + c / 256 mod 16) * 16 + c / 16 mod 16) * 16
   + c mod 16 = c)%N.
Proof.
  intros Hc.
  assert (E4 : (c / 16 / 16 = c / 256)%N) by now rewrite N.Div0.div_div.
  assert (E3 : (c / 256 / 16 = c / 4096)%N) by now rewrite N.Div0.div_div.
  pose proof (N.div_mod c 16 ltac:(lia)) as E0.
  pose proof (N.div_mod (c / 16) 16 ltac:(lia)) as E1. rewrite E4 in E1.
  pose proof (N.div_mod (c / 256) 16 ltac:(lia)) as E2. rewrite E3 in E2.
  assert (H4 : (c / 4096 < 16)%N) by (apply N.Div0.div_lt_upper_bound; lia).
  rewrite (N.mod_small (c / 4096) 16) by assumption.
  revert E0 E1 E2.
  generalize (c mod 16)%N (c / 16 mod 16)%N (c / 256 mod 16)%N
             (c / 16)%N (c / 256)%N (c / 4096)%N.
  intros; lia.
Qed.

Lemma run_UnicodeEscape (acc : jsstring) (k : string_end) (c : code_unit) (rest : jsstring) :
  (c < 65536)%N ->
  run (Str acc k) (UnicodeEscape c ++ rest) = run (Str (c :: acc) k) rest.
Proof.
  intros Hc. unfold UnicodeEscape. cbn [app]. rewrite !run_cons.
  change (step (step (Str acc k) 92) 117) with (Hex 4 0 acc k).
  do 4 (cbn [step]; rewrite hex_value_hex_digit by (apply N.mod_lt; lia)).
  now rewrite hex_quads.
Qed.

Lemma run_quote_chars (n : nat) :
  forall s acc k rest, (length s <= n)%nat ->
    run (Str acc k) (quote_chars s ++ 34%N :: rest)
    = run (end_string k (rev acc ++ s)) rest.
Proof.
  assert (Hend : forall acc k rest,
             run (Str acc k) (quote_chars [] ++ 34%N :: rest)
             = run (end_string k (rev acc ++ [])) rest).
  { intros. now rewrite app_nil_r. }
  induction n as [|n IH]; intros s acc k rest Hlen.
  { destruct s; [apply Hend | cbn in Hlen; lia]. }
  destruct s as [|c s]; [apply Hend|].
  cbn [length] in Hlen.
  assert (Hcons : forall x, rev acc ++ x :: s = rev (x :: acc) ++ s).
  { intros. cbn [rev]. now rewrite <- app_assoc. }
  assert (Hs : (length s <= n)%nat) by lia.
  cbn [quote_chars].
  repeat match goal with
         | |- context [N.eqb c ?x] =>
             destruct (N.eqb_spec c x) as [->|?];
             [ cbn [app]; rewrite !run_cons, Hcons; exact (IH s _ k rest Hs) |]
         end.
  destruct (N.ltb_spec c 32) as [Hlt|Hge].
  { rewrite <- app_assoc, run_UnicodeEscape, Hcons by lia. now apply IH. }
  assert (Hraw : forall x tl acc', x <> 34%N -> x <> 92%N -> (32 <= x)%N ->
             run (Str acc' k) (x :: tl) = run (Str (x :: acc') k) tl).
  { intros. now rewrite run_cons, step_Str_raw. }
  destruct (is_leading_surrogate c) eqn:Hlead.
  { unfold is_leading_surrogate in Hlead. apply andb_prop in Hlead.
    destruct Hlead as [H1 H2]. apply N.leb_le in H1, H2.
    destruct s as [|d s'].
    - rewrite run_UnicodeEscape, Hcons by lia. exact (Hend _ _ _).
    - destruct (is_trailing_surrogate d) eqn:Htrail.
      + unfold is_trailing_surrogate in Htrail. apply andb_prop in Htrail.
        destruct Htrail as [H3 H4]. apply N.leb_le in H3, H4.
        cbn [app]. rewrite !Hraw by lia.
        rewrite Hcons. replace (rev (c :: acc) ++ d :: s') with (rev (d :: c :: acc) ++ s')
          by (cbn [rev]; now rewrite <- !app_assoc).
        apply IH. cbn [length] in Hs. lia.
      + rewrite <- app_assoc, run_UnicodeEscape, Hcons by lia. now apply IH. }
  destruct (is_trailing_surrogate c) eqn:Htrail.
  { unfold is_trailing_surrogate in Htrail. apply andb_prop in Htrail.
    destruct Htrail as [H3 H4]. apply N.leb_le in H3, H4.
    rewrite <- app_assoc, run_UnicodeEscape, Hcons by lia. now apply IH. }
  cbn [app]. rewrite Hraw, Hcons by assumption. now apply IH.
Qed.

(** A quoted string is read back, as a value and as a key. *)
Lemma run_QuoteJSONString (s : jsstring) (K : list frame) (rest : jsstring) :
  run (Value K) (QuoteJSONString s ++ rest) = run (deliver (JString s) K) rest.
Proof.
  unfold QuoteJSONString. cbn [app]. rewrite run_cons, <- app_assoc.
  change (step (Value K) 34) with (Str [] (EndValue K)).
  cbn [app]. now rewrite (run_quote_chars (length s)).
Qed.

Lemma run_key (s : jsstring) (o : object) (K : list frame) (rest : jsstring) :
  run (Str [] (EndKey o K)) (quote_chars s ++ 34%N :: 58%N :: rest)
  = run (Value (FObject o s :: K)) rest.
Proof. now rewrite (run_quote_chars (length s)). Qed.

(** *** Numbers *)

Lemma run_int_digits (ds : jsstring) :
  forall (b : bool) (m0 m : N) (K : list frame),
    digits_value ds m0 = Some m ->
    run (Numeral PInt (numeral_start b m0) K) ds = Numeral PInt (numeral_start b m) K.
Proof.
  induction ds as [|c ds IH]; intros b m0 m K H; cbn [digits_value] in H.
  - now injection H as ->.
  - destruct (is_digit c) eqn:Hc; [|discriminate].
    rewrite run_cons.
    replace (step (Numeral PInt (numeral_start b m0) K) c)
      with (Numeral PInt (numeral_start b (m0 * 10 + (c - 48))) K).
    + now apply IH.
    + cbn [step step_numeral]. now rewrite Hc.
Qed.

Lemma is_digit_bounds (c : code_unit) : is_digit c = true -> (48 <= c <= 57)%N.
Proof.
  unfold is_digit. intros H. apply andb_prop in H. destruct H as [H1 H2].
  apply N.leb_le in H1, H2. lia.
Qed.

Lemma step_value_digit (K : list frame) (c : code_unit) :
  is_digit c = true -> c <> 48%N ->
  step_value K c = Numeral PInt (numeral_start false (c - 48)) K.
Proof.
  intros Hc H0. pose proof (is_digit_bounds c Hc). unfold step_value, is_ws.
  repeat match goal with
         | |- context [N.eqb c ?x] =>
             replace (N.eqb c x) with false by (symmetry; apply N.eqb_neq; lia)
         end.
  cbn [orb]. now rewrite Hc.
Qed.

Lemma step_minus_digit (K : list frame) (c : code_unit) :
  is_digit c = true -> c <> 48%N ->
  step (Numeral PMinus (numeral_start true 0) K) c
  = Numeral PInt (numeral_start true (c - 48)) K.
Proof.
  intros Hc H0. cbn [step step_numeral].
  apply N.eqb_neq in H0. now rewrite H0, Hc.
Qed.

Lemma run_frac_digits (ds : jsstring) :
  forall (b : bool) (m0 f0 m : N) (K : list frame),
    digits_value ds m0 = Some m ->
    run (Numeral PFrac {| neg := b; mant := m0; frac := f0; eneg := false; expo := 0 |} K) ds
    = Numeral PFrac {| neg := b; mant := m; frac := f0 + N.of_nat (length ds);
                       eneg := false; expo := 0 |} K.
Proof.
  induction ds as [|c ds IH]; intros b m0 f0 m K H; cbn [digits_value] in H.
  - injection H as ->. cbn [run fold_left length]. now rewrite N.add_0_r.
  - destruct (is_digit c) eqn:Hc; [|discriminate].
    rewrite run_cons.
    replace (step (Numeral PFrac {| neg := b; mant := m0; frac := f0; eneg := false; expo := 0 |} K) c)
      with (Numeral PFrac {| neg := b; mant := m0 * 10 + (c - 48); frac := f0 + 1;
                             eneg := false; expo := 0 |} K)
      by (cbn [step step_numeral]; now rewrite Hc).
    rewrite (IH _ _ _ _ _ H). do 2 f_equal. cbn [length]. lia.
Qed.

Lemma run_expo_digits (ds : jsstring) :
  forall (b : bool) (m f x0 x : N) (K : list frame),
    digits_value ds x0 = Some x ->
    run (Numeral PExpDigits {| neg := b; mant := m; frac := f; eneg := false; expo := x0 |} K) ds
    = Numeral PExpDigits {| neg := b; mant := m; frac := f; eneg := false; expo := x |} K.
Proof.
  induction ds as [|c ds IH]; intros b m f x0 x K H; cbn [digits_value] in H.
  - now injection H as ->.
  - destruct (is_digit c) eqn:Hc; [|discriminate].
    rewrite run_cons.
    replace (step (Numeral PExpDigits {| neg := b; mant := m; frac := f; eneg := false; expo := x0 |} K) c)
      with (Numeral PExpDigits {| neg := b; mant := m; frac := f; eneg := false;
                                  expo := x0 * 10 + (c - 48) |} K)
      by (cbn [step step_numeral]; now rewrite Hc).
    now apply IH.
Qed.

(** The exponent part [e+x], from a phase where an exponent may start. *)
Lemma run_exponent (ph : phase) (b : bool) (m f x : N) (K : list frame) :
  ph = PInt \/ ph = PFrac ->
  run (Numeral ph {| neg := b; mant := m; frac := f; eneg := false; expo := 0 |} K)
      ([101; 43]%N ++ digits x)
  = Numeral PExpDigits {| neg := b; mant := m; frac := f; eneg := false; expo := x |} K.
Proof.
  intros Hph. cbn [app]. rewrite !run_cons.
  replace (step (step (Numeral ph {| neg := b; mant := m; frac := f; eneg := false; expo := 0 |} K) 101) 43)
    with (Numeral PExpSign {| neg := b; mant := m; frac := f; eneg := false; expo := 0 |} K)
    by (destruct Hph as [-> | ->]; reflexivity).
  pose proof (digits_value_digits x) as Hv.
  destruct (digits_cons x) as (c & ds & E). rewrite E in Hv |- *.
  cbn [digits_value] in Hv. destruct (is_digit c) eqn:Hc; [|discriminate].
  rewrite run_cons.
  replace (step (Numeral PExpSign {| neg := b; mant := m; frac := f; eneg := false; expo := 0 |} K) c)
    with (Numeral PExpDigits {| neg := b; mant := m; frac := f; eneg := false;
                                expo := 0 * 10 + (c - 48) |} K)
    by (cbn [step step_numeral]; now rewrite Hc).
  now apply run_expo_digits.
Qed.

(** What ends a number that may end. *)
Lemma step_number_end (ph : phase) (d : numeral) (K : list frame) (c : code_unit) :
  accepting ph = true ->
  is_digit c = false -> c <> 46%N -> c <> 101%N -> c <> 69%N ->
  step (Numeral ph d K) c = step_after (deliver (JNumber (numeral_value d)) K) c.
Proof.
  intros Hph Hc H46 H101 H69.
  apply N.eqb_neq in H46, H101, H69.
  destruct ph; try discriminate; cbn [step step_numeral accepting];
    rewrite ?Hc, ?H46, ?H101, ?H69; reflexivity.
Qed.

(** From the first digit on: the text of [s * 10^e] in the format
    [Number::toString] gives it leaves the reader on the number
    [s * 10^e], with the sign it holds. *)
Lemma run_to_string_pos (s : N) (e : Z) (b : bool) (K : list frame) :
  (0 < s)%N -> 0 <= e ->
  exists c tl ph d,
    to_string_pos s e = c :: tl
    /\ is_digit c = true /\ c <> 48%N
    /\ accepting ph = true
    /\ numeral_value d = Int ((if b then - Z.of_N s else Z.of_N s) * 10 ^ e)
    /\ run (Numeral PInt (numeral_start b (c - 48)) K) tl = Numeral ph d K.
Proof.
  intros Hs He.
  destruct (digits_head s Hs) as (c & ds & E & Hc & Hc48).
  pose proof (digits_value_digits s) as Hv.
  rewrite E in Hv. cbn [digits_value] in Hv. rewrite Hc in Hv.
  change (0 * 10 + (c - 48))%N with (c - 48)%N in Hv.
  destruct (Z.le_gt_cases (Z.of_nat (length (digits s)) + e) 21) as [Hle|Hgt].
  - (* plain notation: the digits of [s], then [e] zeros *)
    rewrite to_string_pos_plain by lia. rewrite E. cbn [app].
    exists c, (ds ++ repeat 48%N (Z.to_nat e)), PInt,
      (numeral_start b (s * 10 ^ Z.to_N e)).
    repeat split; try assumption.
    + unfold numeral_value, numeral_start. cbn [eneg expo frac neg mant].
      cbn [Z.of_N Z.opp Z.sub Z.add Z.leb Z.compare].
      rewrite Z.pow_0_r, Z.mul_1_r. f_equal.
      rewrite N2Z.inj_mul, N2Z.inj_pow, Z2N.id by lia. destruct b; lia.
    + rewrite run_app, (run_int_digits ds b _ _ K Hv).
      apply run_int_digits.
      rewrite digits_value_zeros. now rewrite Z_nat_N.
  - (* exponent notation *)
    rewrite to_string_pos_exponent by lia. rewrite E. cbv zeta.
    set (x := Z.to_N (Z.of_nat (length (c :: ds)) + e - 1)).
    assert (Hval : forall f, Z.of_N x - Z.of_N f = e ->
              numeral_value {| neg := b; mant := s; frac := f; eneg := false; expo := x |}
              = Int ((if b then - Z.of_N s else Z.of_N s) * 10 ^ e)).
    { intros f Hf. unfold numeral_value. cbn [eneg expo frac neg mant].
      rewrite Hf. apply Z.leb_le in He. now rewrite He. }
    destruct ds as [|y ys].
    + exists c, ([101; 43]%N ++ digits x), PExpDigits,
        {| neg := b; mant := s; frac := 0; eneg := false; expo := x |}.
      injection Hv as Hv.
      repeat split; try assumption.
      * apply Hval. unfold x. cbn [length]. lia.
      * rewrite <- Hv. apply run_exponent. now left.
    + cbn [digits_value] in Hv. destruct (is_digit y) eqn:Hy; [|discriminate].
      exists c, (46%N :: (y :: ys) ++ [101; 43]%N ++ digits x), PExpDigits,
        {| neg := b; mant := s; frac := 1 + N.of_nat (length ys);
           eneg := false; expo := x |}.
      repeat split; try assumption.
      * apply Hval. unfold x. cbn [length]. lia.
      * cbn [app]. rewrite !run_cons.
        replace (step (step (Numeral PInt (numeral_start b (c - 48)) K) 46) y)
          with (Numeral PFrac {| neg := b; mant := (c - 48) * 10 + (y - 48); frac := 1;
                                 eneg := false; expo := 0 |} K).
        2: { change (step (Numeral PInt (numeral_start b (c - 48)) K) 46)
               with (Numeral PDot (numeral_start b (c - 48)) K).
             cbn [step step_numeral]. now rewrite Hy. }
        rewrite run_app, (run_frac_digits ys b _ 1 s K Hv).
        apply run_exponent. now right.
Qed.

(** The text of an integer leaves the reader on a number that may end, the
    integer itself. *)
Lemma run_NumberToString_Int (z : Z) (K : list frame) :
  exists ph d,
    accepting ph = true /\ numeral_value d = Int z
    /\ run (Value K) (NumberToString (Int z)) = Numeral ph d K.
Proof.
  destruct (Z.eq_dec z 0) as [->|Hz].
  { exists PZero, (numeral_start false 0). repeat split. }
  assert (E : NumberToString (Int z)
              = let (s, e) := strip_zeros (N.to_nat (N.log2 (Z.abs_N z))) (Z.abs_N z) 0 in
                (if z <? 0 then [45%N] else []) ++ to_string_pos s e).
  { destruct z; [congruence | reflexivity | reflexivity]. }
  rewrite E. clear E.
  destruct (strip_zeros _ _ 0) as [s e] eqn:E.
  pose proof (strip_zeros_le _ _ _ _ _ E) as He.
  pose proof (strip_zeros_value _ _ _ _ _ E) as Hv. rewrite Z.sub_0_r in Hv.
  assert (Hs : (0 < s)%N).
  { destruct (N.eq_0_gt_0_cases s) as [->|]; [|assumption].
    cbn in Hv. lia. }
  destruct (run_to_string_pos s e (z <? 0) K Hs He)
    as (c & tl & ph & d & -> & Hc & Hc48 & Hph & Hd & Hrun).
  exists ph, d. split; [assumption|]. split.
  - rewrite Hd. f_equal. destruct (Z.ltb_spec z 0); lia.
  - destruct (z <? 0); cbn [app]; rewrite !run_cons.
    + change (step (Value K) 45) with (Numeral PMinus (numeral_start true 0) K).
      now rewrite step_minus_digit.
    + change (step (Value K) c) with (step_value K c).
      now rewrite step_value_digit.
Qed.

(** An integer, followed by a code unit that does not continue a number, is
    read back. *)
Lemma run_Int (z : Z) (K : list frame) (c : code_unit) (rest : jsstring) :
  is_digit c = false -> c <> 46%N -> c <> 101%N -> c <> 69%N ->
  run (Value K) (NumberToString (Int z) ++ c :: rest)
  = run (step_after (deliver (JNumber (Int z)) K) c) rest.
Proof.
  intros Hc H46 H101 H69.
  destruct (run_NumberToString_Int z K) as (ph & d & Hph & Hd & E).
  now rewrite run_app, E, run_cons, step_number_end, Hd.
Qed.

(** At the end of the text as well. *)
Lemma parse_Int (z : Z) : parse (NumberToString (Int z)) = Normal (JNumber (Int z)).
Proof.
  unfold parse.
  destruct (run_NumberToString_Int z []) as (ph & d & Hph & Hd & ->).
  cbn [finish]. now rewrite Hph, Hd.
Qed.

(** The text of an integer starts with its sign or with a digit. *)
Lemma NumberToString_Int_head (z : Z) :
  exists c tl, NumberToString (Int z) = c :: tl /\ (c = 45%N \/ is_digit c = true).
Proof.
  destruct (Z.eq_dec z 0) as [->|Hz].
  { exists 48%N, []. split; [reflexivity | now right]. }
  assert (E : NumberToString (Int z)
              = let (s, e) := strip_zeros (N.to_nat (N.log2 (Z.abs_N z))) (Z.abs_N z) 0 in
                (if z <? 0 then [45%N] else []) ++ to_string_pos s e).
  { destruct z; [congruence | reflexivity | reflexivity]. }
  rewrite E. clear E.
  destruct (strip_zeros _ _ 0) as [s e] eqn:E.
  destruct (z <? 0); [eexists _, _; split; [reflexivity | now left]|].
  pose proof (strip_zeros_le _ _ _ _ _ E) as He.
  pose proof (strip_zeros_value _ _ _ _ _ E) as Hv. rewrite Z.sub_0_r in Hv.
  assert (Hs : (0 < s)%N).
  { destruct (N.eq_0_gt_0_cases s) as [->|]; [|assumption]. cbn in Hv. lia. }
  destruct (run_to_string_pos s e false [] Hs He) as (c & tl & _ & _ & -> & Hc & _).
  exists c, tl. split; [reflexivity | now right].
Qed.

(** *** Values *)

(** Induction on a value, with the hypothesis on every element of an array
    and on every member of an object. *)
Lemma value_induction (P : value -> Prop) :
  P JNull ->
  (forall b, P (JBool b)) ->
  (forall n, P (JNumber n)) ->
  (forall s, P (JString s)) ->
  (forall l, Forall P l -> P (JArray l)) ->
  (forall o, Forall (fun kv => P (snd kv)) o -> P (JObject o)) ->
  forall v, P v.
Proof.
  intros Hnull Hbool Hnum Hstr Harr Hobj.
  fix IH 1. intros [| b | n | s | l | o].
  - exact Hnull.
  - apply Hbool.
  - apply Hnum.
  - apply Hstr.
  - apply Harr.
    exact ((fix all (l : list value) : Forall P l :=
              match l with
              | [] => Forall_nil P
              | x :: l' => Forall_cons x (IH x) (all l')
              end) l).
  - apply Hobj.
    exact ((fix all (o : object) : Forall (fun kv => P (snd kv)) o :=
              match o with
              | [] => Forall_nil _
              | kv :: o' => Forall_cons kv (IH (snd kv)) (all o')
              end) o).
Qed.

(** After a value the reader is in one of the states of [step_after]. *)
Lemma step_deliver (v : value) (K : list frame) (c : code_unit) :
  step (deliver v K) c = step_after (deliver v K) c.
Proof. destruct K as [|[done|o key] K]; reflexivity. Qed.

Lemma reads_closed_reads (v : value) : reads_closed v -> reads v.
Proof. intros H K c rest _. now rewrite H, run_cons. Qed.

Lemma reads_Int (z : Z) : reads (JNumber (Int z)).
Proof.
  intros K c rest Hc. cbn [stringify]. rewrite step_deliver.
  apply run_Int; destruct Hc as [-> | [-> | ->]]; (reflexivity || discriminate).
Qed.

Lemma reads_closed_literal (v : value) :
  v = JNull \/ v = JBool true \/ v = JBool false -> reads_closed v.
Proof. intros [-> | [-> | ->]] K rest; reflexivity. Qed.

Lemma reads_closed_string (s : jsstring) : reads_closed (JString s).
Proof. intros K rest. apply run_QuoteJSONString. Qed.

(** *** Arrays *)

(** A text starts with a code unit that is neither white space nor a closing
    bracket. *)
Lemma stringify_head (v : value) :
  plain v -> exists c tl, stringify v = c :: tl /\ is_ws c = false /\ c <> 93%N.
Proof.
  assert (Hconst : forall c tl s, s = c :: tl -> is_ws c = false -> c <> 93%N ->
             exists c tl, s = c :: tl /\ is_ws c = false /\ c <> 93%N).
  { intros c tl s -> ? ?. now exists c, tl. }
  intros Hv. destruct Hv as [| b | z | s | l _ | o _ _ _].
  - now apply (Hconst 110%N (lit "ull")).
  - destruct b; [now apply (Hconst 116%N (lit "rue")) | now apply (Hconst 102%N (lit "alse"))].
  - cbn [stringify].
    destruct (NumberToString_Int_head z) as (c & tl & -> & [-> | Hc]);
      [now apply (Hconst 45%N tl)|].
    apply is_digit_bounds in Hc.
    apply (Hconst c tl); [reflexivity | | lia].
    unfold is_ws.
    repeat match goal with
           | |- context [N.eqb c ?x] =>
               replace (N.eqb c x) with false by (symmetry; apply N.eqb_neq; lia)
           end.
    reflexivity.
  - now apply (Hconst 34%N (quote_chars s ++ [34%N])).
  - now apply (Hconst 91%N (join (map stringify l) ++ [93%N])).
  - eapply (Hconst 123%N); [reflexivity | reflexivity | discriminate].
Qed.

Lemma join_cons_cons (x y : jsstring) (l : list jsstring) :
  join (x :: y :: l) = x ++ 44%N :: join (y :: l).
Proof. reflexivity. Qed.

Lemma reads_elements (l : list value) :
  Forall reads l -> l <> [] ->
  forall done K rest,
    run (Value (FArray done :: K)) (join (map stringify l) ++ 93%N :: rest)
    = run (deliver (JArray (rev done ++ l)) K) rest.
Proof.
  induction 1 as [|x l Hx Hl IH]; intros Hne done K rest; [congruence|].
  destruct l as [|y l].
  - cbn [map join]. rewrite Hx by (right; now left).
    cbn [deliver]. change (step (ArrayAfter (x :: done) K) 93)
      with (deliver (JArray (rev (x :: done))) K).
    reflexivity.
  - cbn [map]. rewrite join_cons_cons, <- app_assoc. cbn [app].
    rewrite Hx by now left.
    cbn [deliver]. change (step (ArrayAfter (x :: done) K) 44)
      with (Value (FArray (x :: done) :: K)).
    change (join (stringify y :: map stringify l)) with (join (map stringify (y :: l))).
    rewrite IH by discriminate. cbn [rev]. now rewrite <- app_assoc.
Qed.

Lemma reads_closed_array (l : list value) :
  Forall plain l -> Forall reads l -> reads_closed (JArray l).
Proof.
  intros Hp Hr K rest. cbn [stringify]. rewrite <- !app_assoc. cbn [app].
  rewrite run_cons. change (step (Value K) 91) with (ArrayStart K).
  destruct l as [|x l].
  - reflexivity.
  - transitivity (run (Value (FArray [] :: K))
                       (join (map stringify (x :: l)) ++ 93%N :: rest));
      [| exact (reads_elements (x :: l) Hr ltac:(discriminate) [] K rest)].
    inversion Hp as [|? ? Hx _]; subst.
    destruct (stringify_head x Hx) as (c & tl & E & Hws & H93).
    assert (Hj : exists tl', join (map stringify (x :: l)) = c :: tl').
    { destruct l; cbn [map join]; rewrite E; eexists; reflexivity. }
    destruct Hj as [tl' ->]. cbn [app]. rewrite !run_cons. f_equal.
    cbn [step]. apply N.eqb_neq in H93. now rewrite Hws, H93.
Qed.

(** *** Objects *)

Lemma has_key_In (k : jsstring) (o : object) :
  has_key k o = false <-> ~ In k (map fst o).
Proof.
  induction o as [|[k' v'] o IH]; cbn [has_key map fst In].
  - tauto.
  - rewrite orb_false_iff, IH.
    destruct (str_eqb_spec k' k); split; intros H; intuition congruence.
Qed.

Lemma set_fresh (k : jsstring) (v : value) (o : object) :
  ~ In k (map fst o) -> array_index k = None -> set k v o = o ++ [(k, v)].
Proof.
  intros Hk Hi. unfold set. apply has_key_In in Hk. now rewrite Hk, Hi.
Qed.

Lemma NoDup_app_cons_fresh {A : Type} (a b : list A) (x : A) :
  NoDup (a ++ x :: b) -> ~ In x a.
Proof.
  intros H Hin. apply NoDup_remove_2 in H. apply H, in_or_app. now left.
Qed.

Lemma reads_members (o : object) :
  Forall (fun kv => reads (snd kv)) o -> o <> [] ->
  forall o0 K rest,
    NoDup (map fst (o0 ++ o)) ->
    Forall (fun kv => array_index (fst kv) = None) o ->
    run (ObjectKey o0 K) (join (map member o) ++ 125%N :: rest)
    = run (deliver (JObject (o0 ++ o)) K) rest.
Proof.
  induction 1 as [|[k v] o Hv Ho IH]; intros Hne o0 K rest Hdup Hidx; [congruence|].
  inversion Hidx as [|? ? Hk Hidx']; subst. cbn [fst snd] in *.
  assert (Hfresh : ~ In k (map fst o0)).
  { rewrite map_app in Hdup. cbn [map fst] in Hdup.
    now apply NoDup_app_cons_fresh in Hdup. }
  assert (Hstart : forall tail,
             run (ObjectKey o0 K) (member (k, v) ++ tail)
             = run (Value (FObject o0 k :: K)) (stringify v ++ tail)).
  { intros tail. unfold member, QuoteJSONString. cbn [fst snd].
    rewrite <- !app_assoc. cbn [app]. rewrite run_cons.
    change (step (ObjectKey o0 K) 34) with (Str [] (EndKey o0 K)).
    apply run_key. }
  destruct o as [|kv o].
  - cbn [map join]. rewrite Hstart, Hv by (right; now right).
    cbn [deliver]. rewrite set_fresh by assumption. reflexivity.
  - cbn [map]. rewrite join_cons_cons, <- app_assoc. cbn [app].
    rewrite Hstart, Hv by now left.
    cbn [deliver]. rewrite set_fresh by assumption.
    change (step (ObjectAfter (o0 ++ [(k, v)]) K) 44)
      with (ObjectKey (o0 ++ [(k, v)]) K).
    change (join (member kv :: map member o)) with (join (map member (kv :: o))).
    rewrite IH; [| discriminate | | assumption].
    + now rewrite <- app_assoc.
    + now rewrite <- app_assoc.
Qed.

Lemma reads_closed_object (o : object) :
  NoDup (map fst o) ->
  Forall (fun kv => array_index (fst kv) = None) o ->
  Forall (fun kv => reads (snd kv)) o ->
  reads_closed (JObject o).
Proof.
  intros Hdup Hidx Hr K rest.
  destruct o as [|[k v] o]; [reflexivity|].
  change (stringify (JObject ((k, v) :: o)))
    with (123%N :: join (map member ((k, v) :: o)) ++ [125%N]).
  cbn [app]. rewrite <- app_assoc. cbn [app].
  rewrite run_cons. change (step (Value K) 123) with (ObjectStart K).
  transitivity (run (ObjectKey [] K)
                    (join (map member ((k, v) :: o)) ++ 125%N :: rest));
    [| exact (reads_members ((k, v) :: o) Hr ltac:(discriminate) [] K rest Hdup Hidx)].
  assert (Hj : exists tl, join (map member ((k, v) :: o)) = 34%N :: tl).
  { destruct o; cbn [map join]; eexists; reflexivity. }
  destruct Hj as [tl ->]. reflexivity.
Qed.

(** *** Every plain value is read back *)

Lemma plain_reads (v : value) : plain v -> reads v.
Proof.
  induction v as [| b | n | s | l IH | o IH] using value_induction; intros Hv.
  - apply reads_closed_reads, reads_closed_literal. now left.
  - apply reads_closed_reads, reads_closed_literal. destruct b; auto.
  - inversion Hv; subst. apply reads_Int.
  - apply reads_closed_reads, reads_closed_string.
  - inversion Hv as [| | | | ? Hl |]; subst.
    apply reads_closed_reads, reads_closed_array; [assumption|].
    rewrite Forall_forall in *. auto.
  - inversion Hv as [| | | | | ? Hdup Hidx Ho]; subst.
    apply reads_closed_reads, reads_closed_object; [assumption | assumption |].
    rewrite Forall_forall in *. auto.
Qed.

Lemma plain_reads_closed (v : value) :
  plain v -> (forall n, v <> JNumber n) -> reads_closed v.
Proof.
  intros Hv Hn. destruct Hv as [| b | z | s | l Hl | o Hdup Hidx Ho].
  - apply reads_closed_literal. now left.
  - apply reads_closed_literal. destruct b; auto.
  - now contradiction (Hn (Int z)).
  - apply reads_closed_string.
  - apply reads_closed_array; [assumption|].
    rewrite Forall_forall in *. intros x Hx. apply plain_reads; auto.
  - apply reads_closed_object; [assumption | assumption |].
    rewrite Forall_forall in *. intros x Hx. apply plain_reads; auto.
Qed.

(** [JSON.parse(JSON.stringify(v))] is [v]. *)
Theorem parse_stringify (v : value) : plain v -> parse (stringify v) = Normal v.
Proof.
  intros Hv. destruct v as [| b | n | s | l | o].
  3: { inversion Hv; subst. apply parse_Int. }
  all: unfold parse;
    rewrite <- (app_nil_r (stringify _)), (plain_reads_closed _ Hv) by discriminate;
    reflexivity.
Qed.

End JSONFacts.

(** ** The ledger in storage *)

Lemma transaction_plain (t : Transaction) : JSON.plain (value_of_transaction t).
Proof.
  apply JSON.plain_object.
  - cbn [map fst]. repeat constructor; cbn [In];
      intros H; repeat destruct H as [H|H]; try discriminate H; exact H.
  - repeat constructor.
  - repeat constructor.
Qed.

Lemma ledger_plain (l : list Transaction) : JSON.plain (value_of_ledger l).
Proof.
  apply JSON.plain_array.
  induction l as [|t l IH]; cbn [map]; constructor;
    [apply transaction_plain | exact IH].
Qed.

Lemma transaction_of_value_of_transaction (t : Transaction) :
  transaction_of_value (value_of_transaction t) = Some t.
Proof. now destruct t. Qed.

Lemma ledger_of_value_of_ledger (l : list Transaction) :
  ledger_of_value (value_of_ledger l) = Some l.
Proof.
  cbn [ledger_of_value value_of_ledger].
  induction l as [|t l IH]; cbn [map transactions_of_values]; [reflexivity|].
  now rewrite transaction_of_value_of_transaction, IH.
Qed.

Lemma lookup_update (key value : jsstring) (l : list (jsstring * jsstring)) :
  localStorage.lookup key (localStorage.update key value l) = Some value.
Proof.
  induction l as [|[k v] l IH]; cbn [localStorage.update localStorage.lookup].
  - now rewrite str_eqb_refl.
  - destruct (str_eqb k key) eqn:E; cbn [localStorage.lookup]; now rewrite E.
Qed.

Lemma getItem_setItem (key value : jsstring) (ls ls' : localStorage.Storage) :
  localStorage.setItem key value ls = Normal ls' ->
  localStorage.getItem key ls' = Some value.
Proof.
  unfold localStorage.setItem, localStorage.getItem.
  destruct (_ <=? _)%N; [|discriminate].
  intros [= <-]. apply lookup_update.
Qed.

(** A write that fails leaves the storage area as it was. *)
Lemma persist_failed (l : list Transaction) (ls : localStorage.Storage) (e : error) :
  localStorage.setItem (lit "dailySales") (JSON.stringify (value_of_ledger l)) ls
  = Throw e ->
  App.persist l ls = ls.
Proof. unfold App.persist. now intros ->. Qed.

Lemma load_stored (ls : localStorage.Storage) (saved : jsstring) (v : JSON.value) :
  localStorage.getItem (lit "dailySales") ls = Some saved ->
  saved <> [] -> JSON.parse saved = Normal v ->
  App.load ls = v.
Proof.
  intros Hget Hne Hparse. unfold App.load. rewrite Hget.
  apply truthy_true in Hne. now rewrite Hne, Hparse.
Qed.

Lemma load_persist (l : list Transaction) (ls ls' : localStorage.Storage) :
  localStorage.setItem (lit "dailySales") (JSON.stringify (value_of_ledger l)) ls
  = Normal ls' ->
  App.load (App.persist l ls) = value_of_ledger l.
Proof.
  intros Hset. unfold App.persist. rewrite Hset.
  apply (load_stored _ (JSON.stringify (value_of_ledger l))).
  - now apply getItem_setItem with (ls := ls).
  - discriminate.
  - apply JSONFacts.parse_stringify, ledger_plain.
Qed.

(** C5. A ledger that [persist] has written is the ledger [load] reads: the
    value of the ledger, record for record, whatever its strings and its
    integers.  The write is the one of [persist]: when it exceeds the quota
    nothing is stored. *)
Theorem persist_then_load
        (l : list Transaction) (ls ls' : localStorage.Storage) :
  localStorage.setItem (lit "dailySales") (JSON.stringify (value_of_ledger l)) ls
  = Normal ls' ->
  App.load (App.persist l ls) = value_of_ledger l
  /\ ledger_of_value (App.load (App.persist l ls)) = Some l.
Proof.
  intros Hset. rewrite (load_persist l ls ls' Hset).
  split; [reflexivity | apply ledger_of_value_of_ledger].
Qed.

Lemma persist_then_load_witness :
  ledger_of_value (App.load (App.persist Scenario.ledger Scenario.nothing_stored))
  = Some Scenario.ledger.
Proof.
  apply (persist_then_load Scenario.ledger Scenario.nothing_stored
           (App.persist Scenario.ledger Scenario.nothing_stored)).
  reflexivity.
Defined.

(** C4, as the code has it.  [load] returns the empty ledger when nothing is
    stored, when the empty string is stored and when the stored text is not
    JSON; a stored text that is JSON is returned as [JSON.parse] reads it,
    ledger or not.  [load] is a total function: nothing is thrown. *)
Theorem load_fails_soft (ls : localStorage.Storage) :
  (localStorage.getItem (lit "dailySales") ls = None
   \/ localStorage.getItem (lit "dailySales") ls = Some []
   \/ (exists saved e, localStorage.getItem (lit "dailySales") ls = Some saved
                       /\ JSON.parse saved = Throw e) ->
   App.load ls = JSON.JArray [])
  /\ (forall saved v,
        localStorage.getItem (lit "dailySales") ls = Some saved ->
        saved <> [] -> JSON.parse saved = Normal v ->
        App.load ls = v).
Proof.
  split.
  - unfold App.load. intros [-> | [-> | (saved & e & -> & Hparse)]];
      [reflexivity | reflexivity |].
    rewrite Hparse. now destruct (truthy saved).
  - intros saved v. apply load_stored.
Qed.

Lemma load_fails_soft_witness :
  App.load Scenario.broken_stored = JSON.JArray []
  /\ App.load Scenario.numbers_stored
     = JSON.JArray [JSON.JNumber (JSON.Int 1); JSON.JNumber (JSON.Int 2)].
Proof.
  split.
  - apply (load_fails_soft Scenario.broken_stored).
    right; right. exists (lit "[{bad"), SyntaxError. split; reflexivity.
  - apply (load_fails_soft Scenario.numbers_stored) with (saved := lit "[1, 2]");
      [reflexivity | discriminate | reflexivity].
Defined.

(** C4, as the specification has it, fails: the stored text [{}] is JSON and
    no ledger, and [load] returns the object, not the empty ledger. *)
Lemma load_not_a_ledger_counterexample :
  localStorage.getItem (lit "dailySales") Scenario.object_stored = Some (lit "{}")
  /\ JSON.parse (lit "{}") = Normal (JSON.JObject [])
  /\ ledger_of_value (JSON.JObject []) = None
  /\ App.load Scenario.object_stored = JSON.JObject []
  /\ App.load Scenario.object_stored <> JSON.JArray [].
Proof.
  split; [reflexivity|]. split; [reflexivity|]. split; [reflexivity|].
  split; [reflexivity | discriminate].
Qed.

Example load_nothing : App.load Scenario.nothing_stored = JSON.JArray [].
Proof. reflexivity. Qed.

Example load_empty : App.load Scenario.empty_stored = JSON.JArray [].
Proof. reflexivity. Qed.

(** So do [null] and an array of numbers. *)
Example load_null : App.load Scenario.null_stored = JSON.JNull.
Proof. reflexivity. Qed.

Example load_numbers :
  ledger_of_value (App.load Scenario.numbers_stored) = None.
Proof. reflexivity. Qed.

(** ** Invariants of the ledger

    Every handler keeps the data model and, as long as the generated ids are
    fresh, the uniqueness of the ids. *)

Lemma NoDup_map_filter {A B : Type} (f : A -> B) (g : A -> bool) (l : list A) :
  NoDup (map f l) -> NoDup (map f (filter g l)).
Proof.
  induction l as [|x l IH]; cbn [map filter]; intros H; [constructor|].
  inversion H as [|? ? Hx Hl]; subst.
  destruct (g x); cbn [map]; [|now apply IH].
  constructor; [|now apply IH].
  intros Hin. apply Hx. apply in_map_iff in Hin. destruct Hin as (y & E & Hy).
  apply filter_In in Hy. apply in_map_iff. exists y. tauto.
Qed.

Lemma handleAddTransaction_cases (uuid : jsstring) (now : Z) (st : App.State) :
  App.handleAddTransaction uuid now st = st
  \/ exists q p,
       trim (App.productName st) <> [] /\ 0 < q /\ 0 < p
       /\ Number (App.quantity st) = Fin q /\ Number (App.price st) = Fin p
       /\ App.transactions (App.handleAddTransaction uuid now st)
          = newTransaction uuid (trim (App.productName st)) q p now
              :: App.transactions st.
Proof.
  unfold App.handleAddTransaction.
  destruct (truthy (trim (App.productName st))) eqn:Hn; [|now left].
  destruct (Number (App.quantity st)) as [q|]; [|now left].
  destruct (Number (App.price st)) as [p|]; [|rewrite andb_false_r; now left].
  cbn [gt0 andb].
  destruct (Z.ltb_spec 0 q); [|now left].
  destruct (Z.ltb_spec 0 p); [|now left].
  right. exists q, p. apply truthy_true in Hn. cbn. auto 10.
Qed.

Theorem handle_valid (LocalTZA : Z) (e : App.event) (st : App.State) :
  Forall valid_transaction (App.transactions st) ->
  Forall valid_transaction (App.transactions (App.handle LocalTZA e st)).
Proof.
  intros H. destruct e as [v | v | v | uuid now | id0 | [|] clock]; cbn [App.handle];
    try assumption.
  - destruct (handleAddTransaction_cases uuid now st)
      as [-> | (q & p & _ & Hq & Hp & _ & _ & ->)]; [assumption|].
    constructor; [|assumption]. split; cbn; lia.
  - now apply Forall_filter.
  - now apply Forall_filter.
Qed.

Theorem handle_unique_ids (LocalTZA : Z) (e : App.event) (st : App.State) :
  (forall uuid now, e = App.AddTransaction uuid now -> fresh uuid (App.transactions st)) ->
  unique_ids (App.transactions st) ->
  unique_ids (App.transactions (App.handle LocalTZA e st)).
Proof.
  unfold unique_ids. intros Hfresh H.
  destruct e as [v | v | v | uuid now | id0 | [|] clock]; cbn [App.handle];
    try assumption.
  - destruct (handleAddTransaction_cases uuid now st)
      as [-> | (q & p & _ & _ & _ & _ & _ & ->)]; [assumption|].
    cbn [map id newTransaction]. constructor; [|assumption].
    now apply (Hfresh uuid now).
  - now apply NoDup_map_filter.
  - now apply NoDup_map_filter.
Qed.

(** With unique ids, deleting by id takes out one record at most. *)
Lemma handleDeleteTransaction_unique (id0 : jsstring) (st : App.State) :
  unique_ids (App.transactions st) ->
  (length (App.transactions st)
   <= S (length (App.transactions (App.handleDeleteTransaction id0 st))))%nat.
Proof.
  rewrite handleDeleteTransaction_transactions. unfold unique_ids.
  generalize (App.transactions st) as l.
  induction l as [|t l IH]; cbn [map filter length]; intros H; [lia|].
  inversion H as [|? ? Ht Hl]; subst.
  destruct (str_eqb_spec (id t) id0) as [E|E]; cbn [negb length].
  - rewrite filter_all; [lia|].
    intros x Hx. destruct (str_eqb_spec (id x) id0) as [E'|]; [|reflexivity].
    exfalso. apply Ht. rewrite E, <- E'. now apply in_map.
  - specialize (IH Hl). lia.
Qed.

(** ** Reachable states

    From a first start, whatever the user does, the ledger respects the
    data model and its ids are unique; the quantity typed in is one at
    least and the price is not negative. *)

Theorem reachable_invariant (LocalTZA : Z) (st : App.State) :
  App.reachable LocalTZA st ->
  Forall valid_transaction (App.transactions st)
  /\ unique_ids (App.transactions st).
Proof.
  induction 1 as [|e st _ [IHv IHu] Hfresh].
  - split; constructor.
  - split; [now apply handle_valid|].
    apply handle_unique_ids; assumption.
Qed.

(** On a reachable state the sales of the day never exceed the sales of
    the week. *)
Corollary reachable_totals (LocalTZA now : Z) (st : App.State) :
  App.reachable LocalTZA st ->
  totalSalesToday (summary LocalTZA now (App.transactions st))
  <= totalSalesThisWeek (summary LocalTZA now (App.transactions st)).
Proof.
  intros Hr. destruct (reachable_invariant LocalTZA st Hr) as [Hv _].
  now apply day_le_week, valid_earlierThisWeek.
Qed.

Lemma changeQuantity_at_least_one (value : jsstring) (st : App.State) (q : Z) :
  App.quantity (App.changeQuantity value st) = Num (Fin q) -> 1 <= q.
Proof.
  cbn [App.changeQuantity App.quantity].
  destruct (truthy value); [|discriminate].
  destruct (parseInt value) as [z|]; cbn [Math_max]; [|discriminate].
  intros [= <-]. lia.
Qed.

Lemma changePrice_not_negative (value : jsstring) (st : App.State) (p : Z) :
  App.price (App.changePrice value st) = Num (Fin p) -> 0 <= p.
Proof.
  cbn [App.changePrice App.price].
  destruct (truthy value); [|discriminate].
  destruct (parseInt value) as [z|]; cbn [Math_max]; [|discriminate].
  intros [= <-]. lia.
Qed.

Example parseInt_examples :
  parseInt (lit "18000") = Fin 18000
  /\ parseInt (lit "  -42abc") = Fin (-42)
  /\ parseInt (lit "1.5") = Fin 1
  /\ parseInt (lit "1e3") = Fin 1
  /\ parseInt (lit "abc") = NaN
  /\ parseInt (lit "-") = NaN
  /\ parseInt (lit "") = NaN.
Proof. repeat split. Qed.

(** The session of the scenario: the form filled in, then submitted. *)
Example session :
  let st := App.handle Scenario.WIB (App.ChangeProductName (lit " Kopi Susu ")) App.emptyState in
  let st := App.handle Scenario.WIB (App.ChangeQuantity (lit "2")) st in
  let st := App.handle Scenario.WIB (App.ChangePrice (lit "18000")) st in
  let st := App.handle Scenario.WIB (App.AddTransaction (lit "b") Scenario.thursday) st in
  st = {| App.transactions :=
            [newTransaction (lit "b") (lit "Kopi Susu") 2 18000 Scenario.thursday];
          App.productName := [];
          App.quantity := Num (Fin 1);
          App.price := Empty |}.
Proof. reflexivity. Qed.

(** * Further properties of the component *)

(** ** The week and the day of a record *)

Lemma offset_mod (LocalTZA now : Z) :
  offset LocalTZA now = (todayDay LocalTZA now + 1) mod 7.
Proof.
  pose proof (todayDay_range LocalTZA now) as Hd. unfold offset.
  destruct (Z.ltb_spec (todayDay LocalTZA now) 6) as [Hlt|Hge].
  - rewrite Z.mod_small; lia.
  - replace (todayDay LocalTZA now) with 6 by lia. reflexivity.
Qed.

Lemma startOfToday_Day (LocalTZA now : Z) :
  startOfToday LocalTZA now
  = Date.Day (Date.LocalTime LocalTZA now) * Date.msPerDay - LocalTZA.
Proof. apply DateFacts.setHours_midnight. Qed.

Lemma startOfToday_le_Day (LocalTZA now k ts : Z) :
  startOfToday LocalTZA now - k * Date.msPerDay <= ts
  <-> Date.Day (Date.LocalTime LocalTZA now) - k <= Date.Day (Date.LocalTime LocalTZA ts).
Proof.
  rewrite startOfToday_Day. unfold Date.Day, Date.LocalTime, Date.msPerDay.
  split; intros H; Z.to_euclidean_division_equations; lia.
Qed.

Lemma Day_mono (LocalTZA ts now : Z) :
  ts <= now ->
  Date.Day (Date.LocalTime LocalTZA ts) <= Date.Day (Date.LocalTime LocalTZA now).
Proof.
  intros H. unfold Date.Day, Date.LocalTime, Date.msPerDay.
  apply Z.div_le_mono; lia.
Qed.

Lemma transactionsToday_In (LocalTZA now : Z) (l : list Transaction) (t : Transaction) :
  In t (transactionsToday (summary LocalTZA now l))
  <-> In t l /\ startOfToday LocalTZA now <= timestamp t.
Proof.
  cbn [summary summary2 transactionsToday]. unfold dailyTransactions, Date.getTime.
  rewrite filter_In, weeklyTransactions_In.
  pose proof (startOfWeek_le_startOfToday LocalTZA now).
  destruct (Z.geb_spec (timestamp t) (startOfToday LocalTZA now));
    split; intros H'; repeat split; try tauto; try lia.
Qed.

(** X1. The week of the summary starts at a local midnight, on a Saturday:
    the one of today on a Saturday, else the most recent one, [(day + 1) mod 7]
    local calendar days back, six at most; and it does not start after the
    instant of the summary. *)
Theorem startOfWeek_saturday_midnight (LocalTZA now : Z) :
  todayDay LocalTZA (startOfWeek LocalTZA now) = 6
  /\ Date.TimeWithinDay (Date.LocalTime LocalTZA (startOfWeek LocalTZA now)) = 0
  /\ Date.Day (Date.LocalTime LocalTZA (startOfWeek LocalTZA now))
     = Date.Day (Date.LocalTime LocalTZA now) - (todayDay LocalTZA now + 1) mod 7
  /\ 0 <= (todayDay LocalTZA now + 1) mod 7 <= 6
  /\ startOfWeek LocalTZA now <= now.
Proof.
  pose proof (offset_range LocalTZA now) as Ho.
  pose proof (DateFacts.setHours_midnight_bounds LocalTZA now) as Hb.
  fold (startOfToday LocalTZA now) in Hb.
  assert (Hlocal : Date.LocalTime LocalTZA (startOfWeek LocalTZA now)
                   = (Date.Day (Date.LocalTime LocalTZA now) - offset LocalTZA now)
                     * Date.msPerDay).
  { rewrite startOfWeek_startOfToday, startOfToday_Day.
    unfold Date.LocalTime. lia. }
  split; [apply startOfWeek_is_saturday|]. split; [|split; [|split]].
  - rewrite Hlocal. unfold Date.TimeWithinDay. apply Z.mod_mul. discriminate.
  - rewrite Hlocal, <- offset_mod. unfold Date.Day at 1.
    apply Z.div_mul. discriminate.
  - now rewrite <- offset_mod.
  - rewrite startOfWeek_startOfToday. unfold Date.msPerDay in *. lia.
Qed.

(** X2. On a Saturday the week is the day: the week starts at the midnight of
    today, the records of the week are those of the day, and the two totals
    of sales are the same. *)
Theorem saturday_week_is_day (LocalTZA now : Z) (l : list Transaction) :
  todayDay LocalTZA now = 6 ->
  startOfWeek LocalTZA now = startOfToday LocalTZA now
  /\ transactionsToday (summary LocalTZA now l) = weeklyTransactions LocalTZA now l
  /\ totalSalesThisWeek (summary LocalTZA now l)
     = totalSalesToday (summary LocalTZA now l).
Proof.
  intros Hsat.
  assert (Hw : startOfWeek LocalTZA now = startOfToday LocalTZA now).
  { rewrite startOfWeek_startOfToday, offset_mod, Hsat.
    change ((6 + 1) mod 7) with 0. lia. }
  assert (Hl : transactionsToday (summary LocalTZA now l)
               = weeklyTransactions LocalTZA now l).
  { cbn [summary summary2 transactionsToday].
    unfold dailyTransactions, weeklyTransactions.
    rewrite Hw. apply filter_idempotent. }
  split; [exact Hw|]. split; [exact Hl|].
  unfold summary in *. rewrite totalSalesToday_sales.
  cbn [summary2 totalSalesThisWeek transactionsToday] in *.
  rewrite weekTotals_sales. now rewrite Hl.
Qed.

Lemma saturday_week_is_day_witness :
  todayDay Scenario.WIB Scenario.saturday = 6
  /\ totalSalesThisWeek (summary Scenario.WIB Scenario.saturday Scenario.weekend) = 36000
  /\ totalSalesThisWeek (summary Scenario.WIB Scenario.saturday Scenario.weekend)
     = totalSalesToday (summary Scenario.WIB Scenario.saturday Scenario.weekend).
Proof.
  split; [vm_compute; reflexivity|]. split; [vm_compute; reflexivity|].
  apply (saturday_week_is_day Scenario.WIB Scenario.saturday Scenario.weekend).
  vm_compute. reflexivity.
Defined.

(** X3. Which records the summary counts.  A record stamped before the
    instant of the summary is one of today exactly when it was made on the
    same local calendar day, and one of the week exactly when it was made
    [(day + 1) mod 7] calendar days back at most; a record made seven
    calendar days back or more is in neither list.  There is no bound on the
    other side: a record stamped after the instant of the summary is counted
    in the day, whatever its day. *)
Theorem summary_counts_by_calendar_day
        (LocalTZA now : Z) (l : list Transaction) (t : Transaction) :
  In t l ->
  let today := Date.Day (Date.LocalTime LocalTZA now) in
  let made := Date.Day (Date.LocalTime LocalTZA (timestamp t)) in
  (timestamp t <= now ->
   (In t (transactionsToday (summary LocalTZA now l)) <-> made = today)
   /\ (In t (weeklyTransactions LocalTZA now l)
       <-> today - made <= (todayDay LocalTZA now + 1) mod 7))
  /\ (made <= today - 7 ->
      ~ In t (weeklyTransactions LocalTZA now l)
      /\ ~ In t (transactionsToday (summary LocalTZA now l)))
  /\ (now <= timestamp t ->
      In t (transactionsToday (summary LocalTZA now l))
      /\ In t (weeklyTransactions LocalTZA now l)).
Proof.
  intros Hin today made.
  pose proof (startOfToday_le_Day LocalTZA now 0 (timestamp t)) as Hday.
  rewrite Z.mul_0_l, !Z.sub_0_r in Hday.
  pose proof (startOfToday_le_Day LocalTZA now (offset LocalTZA now) (timestamp t))
    as Hweek.
  rewrite <- startOfWeek_startOfToday in Hweek.
  fold today in Hday, Hweek. fold made in Hday, Hweek.
  pose proof (offset_range LocalTZA now) as Ho.
  pose proof (DateFacts.setHours_midnight_bounds LocalTZA now) as Hb.
  fold (startOfToday LocalTZA now) in Hb.
  pose proof (startOfWeek_startOfToday LocalTZA now) as Hsw.
  rewrite transactionsToday_In, weeklyTransactions_In, <- offset_mod.
  split; [|split].
  - intros Hle. pose proof (Day_mono LocalTZA _ _ Hle) as Hm.
    fold today in Hm. fold made in Hm.
    split; split.
    + intros [_ H]. apply Hday in H. lia.
    + intros H. split; [assumption|]. apply Hday. lia.
    + intros [_ H]. apply Hweek in H. lia.
    + intros H. split; [assumption|]. apply Hweek. lia.
  - intros Hold. split; intros [_ H].
    + apply Hweek in H. lia.
    + apply Hday in H. lia.
  - intros Hfut. unfold Date.msPerDay in *. split; split; try assumption; lia.
Qed.

Lemma summary_counts_by_calendar_day_witness :
  let yesterday := newTransaction (lit "a") (lit "Teh Manis") 1 25000
                                  (Scenario.thursday - Date.msPerDay) in
  ~ In yesterday (transactionsToday (summary Scenario.WIB Scenario.thursday Scenario.ledger))
  /\ In yesterday (weeklyTransactions Scenario.WIB Scenario.thursday Scenario.ledger)
  /\ ~ In yesterday (weeklyTransactions Scenario.WIB Scenario.saturday Scenario.ledger).
Proof.
  intros yesterday.
  pose proof (summary_counts_by_calendar_day
                Scenario.WIB Scenario.thursday Scenario.ledger yesterday) as H.
  pose proof (summary_counts_by_calendar_day
                Scenario.WIB Scenario.saturday Scenario.ledger yesterday) as H'.
  assert (Hin : In yesterday Scenario.ledger) by (right; left; reflexivity).
  destruct (H Hin) as (Hpast & _ & _). destruct (H' Hin) as (Hpast' & _ & _).
  assert (Hle : timestamp yesterday <= Scenario.thursday) by (vm_compute; discriminate).
  assert (Hle' : timestamp yesterday <= Scenario.saturday) by (vm_compute; discriminate).
  destruct (Hpast Hle) as [Hday Hweek]. destruct (Hpast' Hle') as [_ Hweek'].
  split; [|split].
  - intros Hc. apply (proj1 Hday) in Hc. vm_compute in Hc. discriminate Hc.
  - apply (proj2 Hweek). vm_compute. discriminate.
  - intros Hc. apply (proj1 Hweek') in Hc. vm_compute in Hc. now apply Hc.
Defined.

(** ** The summary after an event *)

Lemma fold_pieces_shift (l : list Transaction) (a : Z) :
  fold_left pieces l a = a + fold_left pieces l 0.
Proof.
  revert a. induction l as [|t l IH]; intros a; cbn [fold_left]; [lia|].
  rewrite (IH (pieces a t)), (IH (pieces 0 t)). unfold pieces. lia.
Qed.

Lemma fold_pair_snd (l : list Transaction) (a b : Z) :
  snd (fold_left (fun acc t => (fst acc + quantity t * price t, snd acc + quantity t))
                 l (a, b))
  = fold_left pieces l b.
Proof. revert a b. induction l as [|t l IH]; intros a b; simpl; [reflexivity|apply IH]. Qed.

(** The three totals are sums over the two lists of the summary. *)
Lemma summary_totals (LocalTZA now : Z) (l : list Transaction) :
  totalSalesToday (summary LocalTZA now l)
  = fold_left sales (transactionsToday (summary LocalTZA now l)) 0
  /\ totalItemsToday (summary LocalTZA now l)
     = fold_left pieces (transactionsToday (summary LocalTZA now l)) 0
  /\ totalSalesThisWeek (summary LocalTZA now l)
     = fold_left sales (weeklyTransactions LocalTZA now l) 0.
Proof.
  unfold summary. split; [apply totalSalesToday_sales|]. split; [|reflexivity].
  cbn [summary2 totalItemsToday transactionsToday]. apply fold_pair_snd.
Qed.

Lemma fold_sales_middle (a b : list Transaction) (t : Transaction) :
  fold_left sales (a ++ t :: b) 0 = fold_left sales (a ++ b) 0 + quantity t * price t.
Proof.
  rewrite !fold_left_app. cbn [fold_left].
  rewrite (fold_sales_shift b (sales _ t)), (fold_sales_shift b (fold_left sales a 0)).
  unfold sales at 1. lia.
Qed.

Lemma fold_pieces_middle (a b : list Transaction) (t : Transaction) :
  fold_left pieces (a ++ t :: b) 0 = fold_left pieces (a ++ b) 0 + quantity t.
Proof.
  rewrite !fold_left_app. cbn [fold_left].
  rewrite (fold_pieces_shift b (pieces _ t)), (fold_pieces_shift b (fold_left pieces a 0)).
  unfold pieces at 1. lia.
Qed.

Lemma weeklyTransactions_app (LocalTZA now : Z) (a b : list Transaction) :
  weeklyTransactions LocalTZA now (a ++ b)
  = weeklyTransactions LocalTZA now a ++ weeklyTransactions LocalTZA now b.
Proof. apply filter_app. Qed.

Lemma transactionsToday_app (LocalTZA now : Z) (a b : list Transaction) :
  transactionsToday (summary LocalTZA now (a ++ b))
  = transactionsToday (summary LocalTZA now a)
    ++ transactionsToday (summary LocalTZA now b).
Proof.
  cbn [summary summary2 transactionsToday]. unfold dailyTransactions.
  now rewrite weeklyTransactions_app, filter_app.
Qed.

(** A record of the day heads the two lists of the summary. *)
Lemma summary_cons_today (LocalTZA now : Z) (t : Transaction) (l : list Transaction) :
  startOfToday LocalTZA now <= timestamp t ->
  transactionsToday (summary LocalTZA now (t :: l))
  = t :: transactionsToday (summary LocalTZA now l)
  /\ weeklyTransactions LocalTZA now (t :: l) = t :: weeklyTransactions LocalTZA now l.
Proof.
  intros Ht. pose proof (startOfWeek_le_startOfToday LocalTZA now) as Hw.
  cbn [summary summary2 transactionsToday].
  unfold dailyTransactions, weeklyTransactions, Date.getTime. cbn [filter].
  destruct (Z.geb_spec (timestamp t) (startOfWeek LocalTZA now)); [|lia].
  cbn [filter].
  destruct (Z.geb_spec (timestamp t) (startOfToday LocalTZA now)); [|lia].
  split; reflexivity.
Qed.

Lemma handleAddTransaction_accepts
      (uuid : jsstring) (now : Z) (st : App.State) (q p : Z) :
  trim (App.productName st) <> [] ->
  Number (App.quantity st) = Fin q -> 0 < q ->
  Number (App.price st) = Fin p -> 0 < p ->
  App.handleAddTransaction uuid now st
  = {| App.transactions :=
         newTransaction uuid (trim (App.productName st)) q p now :: App.transactions st;
       App.productName := [];
       App.quantity := Num (Fin 1);
       App.price := Empty |}.
Proof.
  intros Hname Hq Hq0 Hp Hp0. unfold App.handleAddTransaction.
  apply truthy_true in Hname. rewrite Hname, Hq, Hp. cbn [gt0].
  apply Z.ltb_lt in Hq0, Hp0. now rewrite Hq0, Hp0.
Qed.

Ltac exact_totals_by_computation :=
  split; [repeat (apply Forall_cons || apply Forall_nil); repeat split;
          vm_compute; discriminate
         | split; vm_compute; discriminate].

(** X4. A sale that the form accepts shows in the summary of its day: taken at
    an instant whose local midnight is not after the sale, the summary lists
    the new record first; it counts the quantity in the items of the day and
    the amount in the sales of the day and of the week, as long as the totals
    of the ledger are exact (safe integers, which the sums of the code do not
    round); a warning that was off stays off. *)
Theorem add_then_summary
        (LocalTZA : Z) (uuid : jsstring) (now later : Z) (st : App.State) (q p : Z) :
  trim (App.productName st) <> [] ->
  Number (App.quantity st) = Fin q -> 0 < q ->
  Number (App.price st) = Fin p -> 0 < p ->
  startOfToday LocalTZA later <= now ->
  let before := summary LocalTZA later (App.transactions st) in
  let after :=
    summary LocalTZA later (App.transactions (App.handleAddTransaction uuid now st)) in
  transactionsToday after
  = newTransaction uuid (trim (App.productName st)) q p now :: transactionsToday before
  /\ (exact_totals (App.transactions (App.handleAddTransaction uuid now st)) ->
      totalItemsToday after = totalItemsToday before + q
      /\ totalSalesToday after = totalSalesToday before + q * p
      /\ totalSalesThisWeek after = totalSalesThisWeek before + q * p)
  /\ (showWarning before = false -> showWarning after = false).
Proof.
  intros Hname Hq Hq0 Hp Hp0 Hday before after. subst before after.
  rewrite (handleAddTransaction_accepts uuid now st q p Hname Hq Hq0 Hp Hp0).
  cbn [App.transactions].
  set (t := newTransaction uuid (trim (App.productName st)) q p now).
  set (l := App.transactions st).
  destruct (summary_cons_today LocalTZA later t l Hday) as [Htoday Hweek].
  destruct (summary_totals LocalTZA later l) as (Hs & Hi & Hw).
  destruct (summary_totals LocalTZA later (t :: l)) as (Hs' & Hi' & Hw').
  assert (Hweek' : totalSalesThisWeek (summary LocalTZA later (t :: l))
                   = totalSalesThisWeek (summary LocalTZA later l) + q * p).
  { rewrite Hw', Hw, Hweek. cbn [fold_left].
    rewrite fold_sales_shift. unfold sales at 1. cbn. lia. }
  split; [exact Htoday|]. split; [intros _; split; [|split; [|exact Hweek']]|].
  - rewrite Hi', Hi, Htoday. cbn [fold_left].
    rewrite fold_pieces_shift. unfold pieces at 1. cbn. lia.
  - rewrite Hs', Hs, Htoday. cbn [fold_left].
    rewrite fold_sales_shift. unfold sales at 1. cbn. lia.
  - unfold summary in *. cbn [summary2 showWarning totalSalesThisWeek] in *.
    unfold shouldShowWarning. destruct (isThursday LocalTZA later); [|reflexivity].
    cbn [andb]. rewrite !Z.ltb_ge. nia.
Qed.

Lemma add_then_summary_witness :
  let after :=
    summary Scenario.WIB Scenario.thursday
            (App.transactions
               (App.handleAddTransaction (lit "id-1") Scenario.thursday Scenario.form)) in
  totalItemsToday after = 5 /\ totalSalesToday after = 51000
  /\ totalSalesThisWeek after = 76000.
Proof.
  intros after.
  pose proof (add_then_summary Scenario.WIB (lit "id-1") Scenario.thursday
                               Scenario.thursday Scenario.form 3 5000) as H.
  destruct H as (_ & Hexact & _);
    [discriminate | reflexivity | lia | reflexivity | lia
     | vm_compute; discriminate |].
  assert (He : exact_totals
                 (App.transactions
                    (App.handleAddTransaction (lit "id-1") Scenario.thursday
                                              Scenario.form))).
  { change (exact_totals (newTransaction (lit "id-1") (lit "Es Teh") 3 5000
                                         Scenario.thursday :: Scenario.ledger)).
    unfold Scenario.ledger. exact_totals_by_computation. }
  destruct (Hexact He) as (Hi & Hs & Hw).
  subst after. rewrite Hi, Hs, Hw. vm_compute. repeat split.
Defined.

(** Two instants of the same local calendar day have the same midnight, the
    same day of the week and the same start of the week. *)
Lemma same_day (LocalTZA a b : Z) :
  Date.Day (Date.LocalTime LocalTZA a) = Date.Day (Date.LocalTime LocalTZA b) ->
  startOfToday LocalTZA a = startOfToday LocalTZA b
  /\ todayDay LocalTZA a = todayDay LocalTZA b
  /\ startOfWeek LocalTZA a = startOfWeek LocalTZA b.
Proof.
  intros Hday.
  assert (Hs : startOfToday LocalTZA a = startOfToday LocalTZA b).
  { now rewrite !startOfToday_Day, Hday. }
  assert (Hd : todayDay LocalTZA a = todayDay LocalTZA b).
  { unfold todayDay, Date.getDay, Date.WeekDay. now rewrite Hday. }
  split; [exact Hs|]. split; [exact Hd|].
  now rewrite !startOfWeek_startOfToday, !offset_mod, Hs, Hd.
Qed.

(** X5. The summary depends on the clock through the local calendar day
    only: two instants of the same local day give the same summary of a
    ledger, so the summary kept from an earlier render of the day is the one
    a new computation would give; and a confirmed clearing gives the same
    ledger at both. *)
Theorem summary_of_the_day
        (LocalTZA a b : Z) (l : list Transaction) (st : App.State) :
  Date.Day (Date.LocalTime LocalTZA a) = Date.Day (Date.LocalTime LocalTZA b) ->
  summary LocalTZA a l = summary LocalTZA b l
  /\ weeklyTransactions LocalTZA a l = weeklyTransactions LocalTZA b l
  /\ App.handleClearAll LocalTZA true a st = App.handleClearAll LocalTZA true b st.
Proof.
  intros Hday. destruct (same_day LocalTZA a b Hday) as (Hs & Hd & Hw).
  assert (Hweek : weeklyTransactions LocalTZA a l = weeklyTransactions LocalTZA b l).
  { unfold weeklyTransactions, Date.getTime. now rewrite Hw. }
  split; [|split; [exact Hweek|]].
  - unfold summary, summary2, dayTotals, dailyTransactions, weekTotals,
      shouldShowWarning, isThursday, weekTotals, Date.getTime.
    now rewrite Hweek, Hs, Hd.
  - unfold App.handleClearAll, Date.getTime. now rewrite Hs.
Qed.

Lemma summary_of_the_day_witness :
  summary Scenario.WIB (Scenario.thursday - 12 * Date.msPerHour) Scenario.ledger
  = summary Scenario.WIB (Scenario.thursday + 11 * Date.msPerHour) Scenario.ledger.
Proof.
  refine (proj1 (summary_of_the_day Scenario.WIB _ _ Scenario.ledger Scenario.form _)).
  vm_compute. reflexivity.
Defined.

(** With unique ids, the filter of a deletion takes one record out of the
    ledger, where it stands. *)
Lemma delete_splits (l : list Transaction) (t : Transaction) :
  unique_ids l -> In t l ->
  exists before after,
    l = before ++ t :: after
    /\ filter (fun x => negb (str_eqb (id x) (id t))) l = before ++ after.
Proof.
  unfold unique_ids. intros Hu Hin.
  destruct (in_split t l Hin) as (a & b & ->). exists a, b. split; [reflexivity|].
  rewrite map_app in Hu. cbn [map] in Hu.
  pose proof (NoDup_remove_2 _ _ _ Hu) as Hnot.
  rewrite filter_app. cbn [filter]. rewrite str_eqb_refl. cbn [negb].
  rewrite !filter_all; [reflexivity| |];
    intros x Hx; destruct (str_eqb_spec (id x) (id t)) as [E|E]; try reflexivity;
    exfalso; apply Hnot; rewrite <- E; apply in_or_app;
    [right | left]; now apply in_map.
Qed.

(** X6. With unique ids, deleting by the id of a record of the ledger takes
    out that record and no other: the ledger is the same before and after it,
    and one record shorter. *)
Theorem handleDeleteTransaction_removes_one (t : Transaction) (st : App.State) :
  unique_ids (App.transactions st) -> In t (App.transactions st) ->
  exists before after,
    App.transactions st = before ++ t :: after
    /\ App.transactions (App.handleDeleteTransaction (id t) st) = before ++ after
    /\ length (App.transactions st)
       = S (length (App.transactions (App.handleDeleteTransaction (id t) st))).
Proof.
  intros Hu Hin. rewrite handleDeleteTransaction_transactions.
  destruct (delete_splits _ t Hu Hin) as (a & b & Hl & Hf).
  exists a, b. rewrite Hf. split; [exact Hl|]. split; [reflexivity|].
  rewrite Hl, !length_app. cbn [length]. lia.
Qed.

Lemma handleDeleteTransaction_removes_one_witness :
  let t := newTransaction (lit "b") (lit "Kopi Susu") 2 18000
                          (Scenario.thursday - Date.msPerHour) in
  exists before after,
    Scenario.ledger = before ++ t :: after
    /\ App.transactions (App.handleDeleteTransaction (lit "b") Scenario.form)
       = before ++ after
    /\ length Scenario.ledger
       = S (length (App.transactions
                      (App.handleDeleteTransaction (lit "b") Scenario.form))).
Proof.
  intros t. apply (handleDeleteTransaction_removes_one t Scenario.form).
  - repeat constructor; cbn [In map id];
      intros H; repeat destruct H as [H|H]; try discriminate H; exact H.
  - left. reflexivity.
Defined.

(** X7. With unique ids, deleting a record that the summary lists for today
    takes it out of that list, where it stands; it takes its quantity off
    the items of the day and its amount off the sales of the day and of the
    week, as long as the totals of the ledger are exact (safe integers, which
    the sums of the code do not round). *)
Theorem delete_then_summary
        (LocalTZA now : Z) (t : Transaction) (st : App.State) :
  unique_ids (App.transactions st) ->
  In t (transactionsToday (summary LocalTZA now (App.transactions st))) ->
  let before := summary LocalTZA now (App.transactions st) in
  let after :=
    summary LocalTZA now (App.transactions (App.handleDeleteTransaction (id t) st)) in
  (exists above below,
     transactionsToday before = above ++ t :: below
     /\ transactionsToday after = above ++ below)
  /\ (exact_totals (App.transactions st) ->
      totalItemsToday after = totalItemsToday before - quantity t
      /\ totalSalesToday after = totalSalesToday before - quantity t * price t
      /\ totalSalesThisWeek after = totalSalesThisWeek before - quantity t * price t).
Proof.
  intros Hu Hin before after. subst before after.
  rewrite handleDeleteTransaction_transactions.
  apply transactionsToday_In in Hin. destruct Hin as [Hin Hday].
  destruct (delete_splits _ t Hu Hin) as (a & b & Hl & Hf).
  rewrite Hf, Hl. clear Hf Hl Hu Hin.
  destruct (summary_cons_today LocalTZA now t b Hday) as [Htoday Hweek].
  assert (Hlist : transactionsToday (summary LocalTZA now (a ++ t :: b))
                  = transactionsToday (summary LocalTZA now a)
                    ++ t :: transactionsToday (summary LocalTZA now b)).
  { now rewrite transactionsToday_app, Htoday. }
  assert (Hlist' : transactionsToday (summary LocalTZA now (a ++ b))
                   = transactionsToday (summary LocalTZA now a)
                     ++ transactionsToday (summary LocalTZA now b)).
  { apply transactionsToday_app. }
  destruct (summary_totals LocalTZA now (a ++ t :: b)) as (Hs & Hi & Hw).
  destruct (summary_totals LocalTZA now (a ++ b)) as (Hs' & Hi' & Hw').
  split; [|intros _; split; [|split]].
  - eexists _, _. split; [exact Hlist | exact Hlist'].
  - rewrite Hi, Hi', Hlist, Hlist', fold_pieces_middle. lia.
  - rewrite Hs, Hs', Hlist, Hlist', fold_sales_middle. lia.
  - rewrite Hw, Hw', !weeklyTransactions_app, Hweek, fold_sales_middle. lia.
Qed.

Lemma delete_then_summary_witness :
  let after :=
    summary Scenario.WIB Scenario.thursday
            (App.transactions (App.handleDeleteTransaction (lit "b") Scenario.form)) in
  totalItemsToday after = 0 /\ totalSalesToday after = 0
  /\ totalSalesThisWeek after = 25000.
Proof.
  intros after.
  pose (t := newTransaction (lit "b") (lit "Kopi Susu") 2 18000
                            (Scenario.thursday - Date.msPerHour)).
  destruct (delete_then_summary Scenario.WIB Scenario.thursday t Scenario.form)
    as (_ & Hexact).
  - repeat constructor; cbn [In map id];
      intros H; repeat destruct H as [H|H]; try discriminate H; exact H.
  - vm_compute. left. reflexivity.
  - assert (He : exact_totals (App.transactions Scenario.form)).
    { change (exact_totals Scenario.ledger).
      unfold Scenario.ledger. exact_totals_by_computation. }
    destruct (Hexact He) as (Hi & Hs & Hw).
    subst after. change (id t) with (lit "b") in Hi, Hs, Hw.
    rewrite Hi, Hs, Hw. vm_compute. repeat split.
Defined.

Lemma filter_partition_length {A : Type} (f g : A -> bool) (l : list A) :
  (forall x, g x = negb (f x)) ->
  length l = (length (filter f l) + length (filter g l))%nat.
Proof.
  intros Hfg. induction l as [|x l IH]; cbn [filter length]; [reflexivity|].
  rewrite (Hfg x). destruct (f x); cbn [negb length]; lia.
Qed.

(** X8. A confirmed clearing takes out the records the summary of the day
    lists for today, and no other: the ledger falls apart into the records
    cleared and the records kept.  After it the summary shows an empty day,
    no item and no sale today; the week has lost the sales of the day and
    nothing more, as long as the totals of the ledger are exact (safe
    integers, which the sums of the code do not round).  The summary is the
    one of an instant [now], the clearing reads the clock later the same
    local day. *)
Theorem clear_then_summary (LocalTZA now clock : Z) (st : App.State) :
  Date.Day (Date.LocalTime LocalTZA now) = Date.Day (Date.LocalTime LocalTZA clock) ->
  let before := summary LocalTZA now (App.transactions st) in
  let kept := App.transactions (App.handleClearAll LocalTZA true clock st) in
  let after := summary LocalTZA clock kept in
  (forall t, In t (App.transactions st) <-> In t (transactionsToday before) \/ In t kept)
  /\ (forall t, ~ (In t (transactionsToday before) /\ In t kept))
  /\ length (App.transactions st)
     = (length (transactionsToday before) + length kept)%nat
  /\ transactionsToday after = []
  /\ totalItemsToday after = 0
  /\ totalSalesToday after = 0
  /\ (exact_totals (App.transactions st) ->
      totalSalesThisWeek after = totalSalesThisWeek before - totalSalesToday before).
Proof.
  intros Hday. destruct (same_day LocalTZA now clock Hday) as (Hsame & Hd & Hsw).
  assert (Hclear : App.handleClearAll LocalTZA true clock st
                   = App.handleClearAll LocalTZA true now st).
  { unfold App.handleClearAll, Date.getTime. now rewrite Hsame. }
  assert (Hsum : forall l, summary LocalTZA clock l = summary LocalTZA now l).
  { intros l. unfold summary, summary2, dayTotals, dailyTransactions, weekTotals,
      shouldShowWarning, isThursday, weekTotals, weeklyTransactions, Date.getTime.
    now rewrite Hsame, Hd, Hsw. }
  cbv zeta. rewrite Hclear, Hsum. clear Hday Hsame Hd Hsw Hclear Hsum clock.
  set (kept := App.transactions (App.handleClearAll LocalTZA true now st)).
  set (before := summary LocalTZA now (App.transactions st)).
  set (after := summary LocalTZA now kept).
  assert (Hkept : forall t, In t kept
                            <-> In t (App.transactions st)
                                /\ timestamp t < startOfToday LocalTZA now).
  { intros t. subst kept.
    cbn [App.handleClearAll App.setTransactions App.transactions].
    unfold clearUpTo, Date.getTime. rewrite filter_In, Z.ltb_lt. tauto. }
  assert (Htoday : forall t, In t (transactionsToday before)
                             <-> In t (App.transactions st)
                                 /\ startOfToday LocalTZA now <= timestamp t).
  { intros t. apply transactionsToday_In. }
  destruct (handleClearAll_summary LocalTZA now st) as [Hempty Hweek].
  fold kept in Hempty, Hweek. fold after in Hempty.
  destruct (summary_totals LocalTZA now kept) as (Hs & Hi & Hw).
  fold after in Hs, Hi, Hw.
  split; [|split; [|split; [|split; [exact Hempty|split; [|split]]]]].
  - intros t. rewrite Hkept, Htoday.
    destruct (Z.le_gt_cases (startOfToday LocalTZA now) (timestamp t)); tauto.
  - intros t. rewrite Hkept, Htoday. lia.
  - subst before kept. cbn [summary summary2 transactionsToday].
    rewrite dailyTransactions_two_readings by lia.
    cbn [App.handleClearAll App.setTransactions App.transactions].
    unfold dailyTransactions_spec, clearUpTo, Date.getTime.
    apply filter_partition_length. intros t.
    destruct (Z.geb_spec (timestamp t) (startOfToday LocalTZA now)),
             (Z.ltb_spec (timestamp t) (startOfToday LocalTZA now));
      try reflexivity; lia.
  - now rewrite Hi, Hempty.
  - now rewrite Hs, Hempty.
  - intros _. rewrite Hw, Hweek. subst before.
    rewrite (week_is_day_and_earlier LocalTZA now (App.transactions st)).
    unfold earlierThisWeek, clearUpTo. lia.
Qed.

Lemma clear_then_summary_witness :
  let kept := App.transactions
                (App.handleClearAll Scenario.WIB true
                                    (Scenario.thursday + Date.msPerHour) Scenario.form) in
  let after := summary Scenario.WIB (Scenario.thursday + Date.msPerHour) kept in
  transactionsToday after = []
  /\ totalSalesThisWeek after = 25000.
Proof.
  cbv zeta.
  destruct (clear_then_summary Scenario.WIB Scenario.thursday
                               (Scenario.thursday + Date.msPerHour) Scenario.form)
    as (_ & _ & _ & Hempty & _ & _ & Hweek).
  - vm_compute. reflexivity.
  - split; [exact Hempty|]. rewrite Hweek; [vm_compute; reflexivity|].
    change (exact_totals Scenario.ledger).
    unfold Scenario.ledger. exact_totals_by_computation.
Defined.

(** ** The handlers together *)

Lemma filter_fresh (uuid : jsstring) (l : list Transaction) :
  fresh uuid l -> filter (fun t => negb (str_eqb (id t) uuid)) l = l.
Proof.
  intros Hfresh. apply filter_all. intros x Hx.
  destruct (str_eqb_spec (id x) uuid) as [E|E]; [|reflexivity].
  exfalso. apply Hfresh. rewrite <- E. now apply in_map.
Qed.

(** X9. Deleting undoes adding: after a submission, accepted or not, under an
    id that no record carried, deleting by that id gives back the ledger of
    before. *)
Theorem delete_undoes_add (uuid : jsstring) (now : Z) (st : App.State) :
  fresh uuid (App.transactions st) ->
  App.transactions
    (App.handleDeleteTransaction uuid (App.handleAddTransaction uuid now st))
  = App.transactions st.
Proof.
  intros Hfresh. rewrite handleDeleteTransaction_transactions.
  destruct (handleAddTransaction_cases uuid now st)
    as [-> | (q & p & _ & _ & _ & _ & _ & ->)].
  - now apply filter_fresh.
  - cbn [filter newTransaction id]. rewrite str_eqb_refl. cbn [negb].
    now apply filter_fresh.
Qed.

Lemma delete_undoes_add_witness :
  App.transactions
    (App.handleDeleteTransaction
       (lit "id-1")
       (App.handleAddTransaction (lit "id-1") Scenario.thursday Scenario.form))
  = Scenario.ledger.
Proof.
  apply (delete_undoes_add (lit "id-1") Scenario.thursday Scenario.form).
  cbn [fresh In map id]. intros H.
  repeat destruct H as [H|H]; try discriminate H; exact H.
Defined.

Lemma filter_comm {A : Type} (f g : A -> bool) (l : list A) :
  filter f (filter g l) = filter g (filter f l).
Proof.
  induction l as [|x l IH]; cbn [filter]; [reflexivity|].
  destruct (f x) eqn:Hf, (g x) eqn:Hg; cbn [filter];
    rewrite ?Hf, ?Hg, IH; reflexivity.
Qed.

(** X10. The order of the removals does not matter: two deletions commute, a
    deletion commutes with a confirmed clearing, and of two confirmed
    clearings the one with the earlier clock reading decides. *)
Theorem removals_commute
        (LocalTZA : Z) (id1 id2 : jsstring) (clock clock' : Z) (st : App.State) :
  App.handleDeleteTransaction id1 (App.handleDeleteTransaction id2 st)
  = App.handleDeleteTransaction id2 (App.handleDeleteTransaction id1 st)
  /\ App.handleDeleteTransaction id1 (App.handleClearAll LocalTZA true clock st)
     = App.handleClearAll LocalTZA true clock (App.handleDeleteTransaction id1 st)
  /\ (clock <= clock' ->
      App.handleClearAll LocalTZA true clock' (App.handleClearAll LocalTZA true clock st)
      = App.handleClearAll LocalTZA true clock st
      /\ App.handleClearAll LocalTZA true clock (App.handleClearAll LocalTZA true clock' st)
         = App.handleClearAll LocalTZA true clock st).
Proof.
  unfold App.handleDeleteTransaction, App.handleClearAll, App.setTransactions, clearUpTo.
  cbn [App.transactions App.productName App.quantity App.price].
  split; [|split].
  - f_equal. apply filter_comm.
  - f_equal. apply filter_comm.
  - intros Hle. unfold Date.getTime.
    pose proof (DateFacts.setHours_midnight_mono LocalTZA clock clock' Hle) as Hm.
    fold (startOfToday LocalTZA clock) in Hm. fold (startOfToday LocalTZA clock') in Hm.
    split; f_equal.
    + rewrite filter_comm. apply filter_filter_implied.
      intros t. rewrite !Z.ltb_lt. lia.
    + apply filter_filter_implied. intros t. rewrite !Z.ltb_lt. lia.
Qed.

Lemma removals_commute_witness :
  App.handleClearAll Scenario.WIB true Scenario.friday
                     (App.handleClearAll Scenario.WIB true Scenario.thursday Scenario.form)
  = App.handleClearAll Scenario.WIB true Scenario.thursday Scenario.form.
Proof.
  destruct (removals_commute Scenario.WIB [] [] Scenario.thursday Scenario.friday
                             Scenario.form) as (_ & _ & H).
  apply H. vm_compute. discriminate.
Defined.

(** X11. What an event does to the ledger: either it is a submission that the
    form accepts, and one record is put in front of the ledger, or records
    are taken out and the others stay as they are and in their order. No
    event changes a record or the order of the records. *)
Theorem handle_adds_or_deletes (LocalTZA : Z) (e : App.event) (st : App.State) :
  (exists uuid now q p,
     e = App.AddTransaction uuid now /\ 0 < q /\ 0 < p
     /\ App.transactions (App.handle LocalTZA e st)
        = newTransaction uuid (trim (App.productName st)) q p now
            :: App.transactions st)
  \/ (exists P, Deletes P (App.transactions st)
                        (App.transactions (App.handle LocalTZA e st))).
Proof.
  assert (Hsame : forall l : list Transaction, Deletes (fun _ => False) l l).
  { induction l as [|t l IH]; constructor; tauto. }
  destruct e as [v | v | v | uuid now | id0 | [|] clock]; cbn [App.handle].
  - right. eexists. apply Hsame.
  - right. eexists. apply Hsame.
  - right. eexists. apply Hsame.
  - destruct (handleAddTransaction_cases uuid now st)
      as [-> | (q & p & _ & Hq & Hp & _ & _ & Hl)].
    + right. eexists. apply Hsame.
    + left. exists uuid, now, q, p. auto.
  - right. exists (fun t => id t = id0).
    rewrite handleDeleteTransaction_transactions. apply filter_Deletes.
    intros t. destruct (str_eqb_spec (id t) id0); simpl; split; congruence.
  - right. eexists. apply clearUpTo_Deletes.
  - right. eexists. apply Hsame.
Qed.

(** X12. A double submission adds one record at most: the form is reset when
    a record is added, so the submission that follows at once is refused. *)
Theorem handleAddTransaction_twice (uuid uuid' : jsstring) (now now' : Z) (st : App.State) :
  App.handleAddTransaction uuid' now' (App.handleAddTransaction uuid now st)
  = App.handleAddTransaction uuid now st
  /\ (length (App.transactions
                (App.handleAddTransaction uuid' now'
                   (App.handleAddTransaction uuid now st)))
      <= S (length (App.transactions st)))%nat.
Proof.
  destruct (truthy (trim (App.productName st)) && gt0 (Number (App.quantity st))
            && gt0 (Number (App.price st))) eqn:Hguard.
  - assert (E : exists t,
               App.handleAddTransaction uuid now st
               = {| App.transactions := t :: App.transactions st;
                    App.productName := [];
                    App.quantity := Num (Fin 1);
                    App.price := Empty |}).
    { unfold App.handleAddTransaction. rewrite Hguard.
      destruct (Number (App.quantity st)) as [q|];
        [|rewrite andb_false_r in Hguard; discriminate Hguard].
      destruct (Number (App.price st)) as [p|];
        [|rewrite andb_false_r in Hguard; discriminate Hguard].
      eexists. reflexivity. }
    destruct E as [t ->]. split; [reflexivity|].
    unfold App.handleAddTransaction. cbn. lia.
  - assert (E : forall u n, App.handleAddTransaction u n st = st).
    { intros u n. unfold App.handleAddTransaction. now rewrite Hguard. }
    rewrite !E. split; [reflexivity|lia].
Qed.

(** ** The form *)

Lemma parseInt_truthy (value : jsstring) (z : Z) :
  parseInt value = Fin z -> truthy value = true.
Proof. destruct value; [discriminate | reflexivity]. Qed.

(** X13. What the quantity field makes of the text typed.  A text that
    [parseInt] reads as a number, be it [0] or negative, sets the quantity to
    that number or to one, whichever is larger, and the submission passes the
    check of the quantity; every other text, the empty one included, fails
    it.  The ledger and the other fields stay as they are. *)
Theorem changeQuantity_submission (value : jsstring) (st : App.State) :
  let st' := App.changeQuantity value st in
  (gt0 (Number (App.quantity st')) = true <-> exists z, parseInt value = Fin z)
  /\ (forall z, parseInt value = Fin z -> App.quantity st' = Num (Fin (Z.max 1 z)))
  /\ App.transactions st' = App.transactions st
  /\ App.productName st' = App.productName st
  /\ App.price st' = App.price st.
Proof.
  cbn [App.changeQuantity App.quantity App.transactions App.productName App.price].
  split; [|split; [|repeat split]].
  - destruct (parseInt value) as [z|] eqn:Hp.
    + rewrite (parseInt_truthy value z Hp). cbn [Math_max Number gt0].
      split; [intros _; now exists z | intros _; apply Z.ltb_lt; lia].
    + destruct (truthy value); cbn [Math_max Number gt0];
        (split; [discriminate | intros [z Hz]; discriminate Hz]).
  - intros z Hp. now rewrite (parseInt_truthy value z Hp), Hp.
Qed.

Lemma changeQuantity_submission_witness :
  App.quantity (App.changeQuantity (lit "-3") App.emptyState) = Num (Fin 1).
Proof.
  destruct (changeQuantity_submission (lit "-3") App.emptyState) as (_ & H & _).
  apply (H (-3)). reflexivity.
Defined.

(** X14. What the price field makes of the text typed.  A text that
    [parseInt] reads as a number sets the price to that number, or to zero
    when it is negative; the submission passes the check of the price exactly
    when the number is above zero, so a price of [0] can be typed and cannot
    be submitted. *)
Theorem changePrice_submission (value : jsstring) (st : App.State) :
  let st' := App.changePrice value st in
  (gt0 (Number (App.price st')) = true <-> exists z, parseInt value = Fin z /\ 0 < z)
  /\ (forall z, parseInt value = Fin z -> App.price st' = Num (Fin (Z.max 0 z)))
  /\ App.transactions st' = App.transactions st
  /\ App.productName st' = App.productName st
  /\ App.quantity st' = App.quantity st.
Proof.
  cbn [App.changePrice App.quantity App.transactions App.productName App.price].
  split; [|split; [|repeat split]].
  - destruct (parseInt value) as [z|] eqn:Hp.
    + rewrite (parseInt_truthy value z Hp). cbn [Math_max Number gt0].
      rewrite Z.ltb_lt. split.
      * intros H. exists z. split; [reflexivity | lia].
      * intros (z' & [= <-] & Hz). lia.
    + destruct (truthy value); cbn [Math_max Number gt0];
        (split; [discriminate | intros (z & Hz & _); discriminate Hz]).
  - intros z Hp. now rewrite (parseInt_truthy value z Hp), Hp.
Qed.

Lemma changePrice_submission_witness :
  App.price (App.changePrice (lit "-500") App.emptyState) = Num (Fin 0).
Proof.
  destruct (changePrice_submission (lit "-500") App.emptyState) as (_ & H & _).
  apply (H (-500)). reflexivity.
Defined.

(** X15. From the keyboard to the ledger: a name with a character that is
    not white space, a quantity text and a price text that [parseInt] reads,
    the price above zero, typed in any order and submitted, put in front of
    the ledger the record with the trimmed name, the quantity typed or one,
    whichever is larger, and the price typed; the form is reset to an empty
    name, a quantity of one and an empty price. *)
Theorem form_submission
        (productName quantity price uuid : jsstring) (now : Z) (st : App.State)
        (q p : Z) :
  trim productName <> [] ->
  parseInt quantity = Fin q -> parseInt price = Fin p -> 0 < p ->
  let added :=
    {| App.transactions :=
         newTransaction uuid (trim productName) (Z.max 1 q) p now :: App.transactions st;
       App.productName := [];
       App.quantity := Num (Fin 1);
       App.price := Empty |} in
  App.handleAddTransaction
    uuid now
    (App.changePrice price (App.changeQuantity quantity
                                               (App.changeProductName productName st)))
  = added
  /\ App.handleAddTransaction
       uuid now
       (App.changeProductName productName
                              (App.changeQuantity quantity (App.changePrice price st)))
     = added.
Proof.
  intros Hname Hq Hp Hp0 added. subst added.
  pose proof (parseInt_truthy _ _ Hq) as Htq. pose proof (parseInt_truthy _ _ Hp) as Htp.
  split.
  - rewrite (handleAddTransaction_accepts uuid now _ (Z.max 1 q) p);
      cbn [App.changePrice App.changeQuantity App.changeProductName
           App.transactions App.productName App.quantity App.price];
      rewrite ?Htq, ?Htp, ?Hq, ?Hp; cbn [Math_max Number];
      try reflexivity; try assumption; try lia.
    now replace (Z.max 0 p) with p by lia.
  - rewrite (handleAddTransaction_accepts uuid now _ (Z.max 1 q) p);
      cbn [App.changePrice App.changeQuantity App.changeProductName
           App.transactions App.productName App.quantity App.price];
      rewrite ?Htq, ?Htp, ?Hq, ?Hp; cbn [Math_max Number];
      try reflexivity; try assumption; try lia.
    now replace (Z.max 0 p) with p by lia.
Qed.

Lemma form_submission_witness :
  App.handleAddTransaction
    (lit "b") Scenario.thursday
    (App.changePrice (lit "18000")
       (App.changeQuantity (lit "0")
          (App.changeProductName (lit " Kopi Susu ") App.emptyState)))
  = {| App.transactions :=
         [newTransaction (lit "b") (lit "Kopi Susu") 1 18000 Scenario.thursday];
       App.productName := [];
       App.quantity := Num (Fin 1);
       App.price := Empty |}.
Proof.
  apply (form_submission (lit " Kopi Susu ") (lit "0") (lit "18000") (lit "b")
                         Scenario.thursday App.emptyState 0 18000);
    [discriminate | reflexivity | reflexivity | lia].
Defined.

(** ** What holds in every state *)

Lemma handle_from_form (LocalTZA : Z) (e : App.event) (st : App.State) :
  Forall from_form (App.transactions st) ->
  Forall from_form (App.transactions (App.handle LocalTZA e st)).
Proof.
  intros H. destruct e as [v | v | v | uuid now | id0 | [|] clock]; cbn [App.handle];
    try assumption.
  - destruct (handleAddTransaction_cases uuid now st)
      as [-> | (q & p & Hn & Hq & Hp & _ & _ & ->)]; [assumption|].
    constructor; [|assumption].
    unfold from_form, newTransaction. cbn [name quantity price].
    repeat split; [assumption | apply trim_idempotent | lia | lia].
  - now apply Forall_filter.
  - now apply Forall_filter.
Qed.

Lemma handle_fields_in_range (LocalTZA : Z) (e : App.event) (st : App.State) :
  fields_in_range st -> fields_in_range (App.handle LocalTZA e st).
Proof.
  unfold fields_in_range. intros [Hq Hp].
  destruct e as [v | v | v | uuid now | id0 | [|] clock]; cbn [App.handle];
    try (split; assumption).
  - cbn [App.changeQuantity App.quantity App.price]. split; [|assumption].
    destruct (truthy v); [|exact I].
    destruct (parseInt v); cbn [Math_max]; [lia | exact I].
  - cbn [App.changePrice App.quantity App.price]. split; [assumption|].
    destruct (truthy v); [|exact I].
    destruct (parseInt v); cbn [Math_max]; [lia | exact I].
  - unfold App.handleAddTransaction.
    destruct (_ && _ && _); [|split; assumption].
    destruct (Number (App.quantity st)); [|split; assumption].
    destruct (Number (App.price st)); [|split; assumption].
    cbn [App.quantity App.price]. split; [lia | exact I].
Qed.

(** X16. Whatever the user does from a first start, the ids generated being
    fresh: every record of the ledger is one the form made, with a name that
    is not empty and has no white space around it, a quantity of one at
    least and a price above zero; no two records carry the same id; and a
    number in the quantity field is one at least, a number in the price field
    is not negative. *)
Theorem reachable_well_formed (LocalTZA : Z) (st : App.State) :
  App.reachable LocalTZA st ->
  Forall from_form (App.transactions st)
  /\ unique_ids (App.transactions st)
  /\ fields_in_range st.
Proof.
  induction 1 as [|e st _ (IHf & IHu & IHr) Hfresh].
  - split; [constructor|]. split; [constructor|]. split; [cbn; lia | exact I].
  - split; [now apply handle_from_form|].
    split; [now apply handle_unique_ids | now apply handle_fields_in_range].
Qed.

Lemma reachable_well_formed_witness :
  let st := App.handle Scenario.WIB (App.ChangeProductName (lit " Kopi Susu "))
                       App.emptyState in
  let st := App.handle Scenario.WIB (App.ChangeQuantity (lit "-3")) st in
  let st := App.handle Scenario.WIB (App.ChangePrice (lit "18000")) st in
  let st := App.handle Scenario.WIB (App.AddTransaction (lit "b") Scenario.thursday) st in
  App.transactions st
  = [newTransaction (lit "b") (lit "Kopi Susu") 1 18000 Scenario.thursday]
  /\ Forall from_form (App.transactions st)
  /\ unique_ids (App.transactions st)
  /\ fields_in_range st.
Proof.
  cbv zeta. split; [reflexivity|].
  apply (reachable_well_formed Scenario.WIB).
  do 4 (apply App.reachable_event;
        [|intros uuid now E; first [discriminate E | vm_compute; tauto]]).
  apply App.reachable_start.
Defined.

(** ** The order of the ledger *)

Lemma newest_first_filter (f : Transaction -> bool) (l : list Transaction) :
  newest_first l -> newest_first (filter f l).
Proof.
  induction l as [|t l IH]; cbn [newest_first filter]; [trivial|].
  intros [Ht Hl]. destruct (f t); cbn [newest_first]; [|now apply IH].
  split; [|now apply IH]. intros u Hu. apply filter_In in Hu. now apply Ht.
Qed.

Lemma newest_first_cut (c : Z) (l : list Transaction) :
  newest_first l ->
  l = filter (fun t => timestamp t >=? c) l ++ filter (fun t => timestamp t <? c) l.
Proof.
  induction l as [|t l IH]; cbn [newest_first filter]; [reflexivity|].
  intros [Ht Hl].
  destruct (Z.geb_spec (timestamp t) c) as [Hge|Hlt].
  - destruct (Z.ltb_spec (timestamp t) c); [lia|].
    cbn [app]. f_equal. now apply IH.
  - destruct (Z.ltb_spec (timestamp t) c); [|lia].
    assert (Hnone : filter (fun t => timestamp t >=? c) l = []).
    { clear IH Hl. induction l as [|u l IH]; cbn [filter]; [reflexivity|].
      pose proof (Ht u (or_introl eq_refl)).
      destruct (Z.geb_spec (timestamp u) c); [lia|].
      apply IH. intros v Hv. apply Ht. now right. }
    rewrite Hnone. cbn [app]. f_equal. symmetry. apply filter_all.
    intros u Hu. specialize (Ht u Hu). apply Z.ltb_lt. lia.
Qed.

(** X17. With a clock that does not fall behind the stamps of the ledger, the
    ledger stays in the order from the newest record to the oldest, whatever
    the event. *)
Theorem handle_newest_first (LocalTZA : Z) (e : App.event) (st : App.State) :
  (forall uuid now, e = App.AddTransaction uuid now ->
                    forall t, In t (App.transactions st) -> timestamp t <= now) ->
  newest_first (App.transactions st) ->
  newest_first (App.transactions (App.handle LocalTZA e st)).
Proof.
  intros Hclock H.
  destruct e as [v | v | v | uuid now | id0 | [|] clock]; cbn [App.handle];
    try assumption.
  - destruct (handleAddTransaction_cases uuid now st)
      as [-> | (q & p & _ & _ & _ & _ & _ & ->)]; [assumption|].
    cbn [newest_first]. split; [|assumption].
    intros u Hu. cbn [newTransaction timestamp]. now apply (Hclock uuid now).
  - now apply newest_first_filter.
  - now apply newest_first_filter.
Qed.

Lemma handle_newest_first_witness :
  newest_first
    (App.transactions
       (App.handle Scenario.WIB (App.AddTransaction (lit "id-1") Scenario.thursday)
                   Scenario.form)).
Proof.
  apply (handle_newest_first Scenario.WIB).
  - intros uuid now [= <- <-] t Ht. change (In t Scenario.ledger) in Ht.
    unfold Scenario.ledger in Ht. cbn [In] in Ht.
    destruct Ht as [<- | [<- | []]]; vm_compute; discriminate.
  - change (newest_first Scenario.ledger).
    unfold Scenario.ledger. cbn [newest_first In]. split; [|split; [|exact I]].
    + intros u [<- | []]. vm_compute. discriminate.
    + intros u [].
Defined.

(** X18. On a ledger in the order from the newest record to the oldest, the
    list of today is the head of the ledger and the list of the week is: the
    ledger is the records of today followed by the records a clearing would
    keep, and the records of the week followed by older ones.  The two lists
    are in that order themselves. *)
Theorem newest_first_today_leads (LocalTZA now : Z) (l : list Transaction) :
  newest_first l ->
  l = transactionsToday (summary LocalTZA now l) ++ clearUpTo (startOfToday LocalTZA now) l
  /\ (exists older,
        l = weeklyTransactions LocalTZA now l ++ older
        /\ Forall (fun t => timestamp t < startOfWeek LocalTZA now) older)
  /\ newest_first (transactionsToday (summary LocalTZA now l))
  /\ newest_first (weeklyTransactions LocalTZA now l).
Proof.
  intros H. split; [|split; [|split]].
  - cbn [summary summary2 transactionsToday].
    rewrite dailyTransactions_two_readings by lia.
    apply newest_first_cut, H.
  - exists (filter (fun t => timestamp t <? startOfWeek LocalTZA now) l). split.
    + apply newest_first_cut, H.
    + apply Forall_forall. intros t Ht. apply filter_In in Ht. lia.
  - cbn [summary summary2 transactionsToday]. unfold dailyTransactions, weeklyTransactions.
    now do 2 apply newest_first_filter.
  - now apply newest_first_filter.
Qed.

Lemma newest_first_today_leads_witness :
  Scenario.ledger
  = transactionsToday (summary Scenario.WIB Scenario.thursday Scenario.ledger)
    ++ clearUpTo (startOfToday Scenario.WIB Scenario.thursday) Scenario.ledger.
Proof.
  assert (H : newest_first Scenario.ledger).
  { unfold Scenario.ledger. cbn [newest_first In]. split; [|split; [|exact I]].
    - intros u [<- | []]. vm_compute. discriminate.
    - intros u []. }
  exact (proj1 (newest_first_today_leads Scenario.WIB Scenario.thursday
                                         Scenario.ledger H)).
Defined.

(** ** The copy of the ledger in storage *)

Lemma lookup_update_other (key k value : jsstring) (l : list (jsstring * jsstring)) :
  k <> key ->
  localStorage.lookup k (localStorage.update key value l) = localStorage.lookup k l.
Proof.
  intros Hk. induction l as [|[k' v'] l IH]; cbn [localStorage.update localStorage.lookup].
  - destruct (str_eqb_spec key k); [congruence | reflexivity].
  - destruct (str_eqb_spec k' key) as [E|E]; cbn [localStorage.lookup].
    + destruct (str_eqb_spec k' k); [congruence | reflexivity].
    + now rewrite IH.
Qed.

Lemma update_update (key value : jsstring) (l : list (jsstring * jsstring)) :
  localStorage.update key value (localStorage.update key value l)
  = localStorage.update key value l.
Proof.
  induction l as [|[k' v'] l IH]; cbn [localStorage.update].
  - now rewrite str_eqb_refl.
  - destruct (str_eqb k' key) eqn:E; cbn [localStorage.update]; rewrite E;
      [reflexivity | now rewrite IH].
Qed.

Lemma persist_frame (l : list Transaction) (ls : localStorage.Storage) (k : jsstring) :
  k <> lit "dailySales" ->
  localStorage.getItem k (App.persist l ls) = localStorage.getItem k ls
  /\ localStorage.quota (App.persist l ls) = localStorage.quota ls.
Proof.
  intros Hk. unfold App.persist, localStorage.setItem, localStorage.getItem.
  destruct (_ <=? _)%N; cbn [localStorage.items localStorage.quota];
    [|split; reflexivity].
  split; [now apply lookup_update_other | reflexivity].
Qed.

(** X19. The component writes under the key [dailySales] only: after the
    first render and after any session, whatever the events and whether the
    writes succeed, the storage area holds under every other key what it
    held before. *)
Theorem storage_other_keys
        (LocalTZA : Z) (events : list App.event)
        (s : App.State * localStorage.Storage) (ls : localStorage.Storage)
        (k : jsstring) :
  k <> lit "dailySales" ->
  localStorage.getItem k (snd (session_run LocalTZA events s))
  = localStorage.getItem k (snd s)
  /\ (forall s', mount ls = Some s' ->
                 localStorage.getItem k (snd s') = localStorage.getItem k ls).
Proof.
  intros Hk. split.
  - revert s. unfold session_run.
    induction events as [|e events IH]; intros s; cbn [fold_left]; [reflexivity|].
    rewrite IH. unfold App.dispatch. cbn [snd].
    destruct (App.sets e (fst s)); [|reflexivity].
    now apply persist_frame.
  - intros s'. unfold mount. destruct (App.initialState ls) as [st|]; [|discriminate].
    intros [= <-]. cbn [snd]. now apply persist_frame.
Qed.

Lemma storage_other_keys_witness :
  localStorage.getItem
    (lit "theme")
    (snd (session_run Scenario.WIB
                      [App.ChangeProductName (lit "Kopi"); App.ChangePrice (lit "18000");
                       App.AddTransaction (lit "b") Scenario.thursday;
                       App.ClearAll true Scenario.thursday]
                      (App.emptyState, Scenario.shared_stored)))
  = Some (lit "dark").
Proof.
  refine (proj1 (storage_other_keys Scenario.WIB _ (App.emptyState, Scenario.shared_stored)
                                    Scenario.nothing_stored (lit "theme") _)).
  discriminate.
Defined.

(** X20. Writing the ledger a second time changes nothing: the effect may
    run once or twice on the same ledger, the storage area is the same. *)
Theorem persist_twice (l : list Transaction) (ls : localStorage.Storage) :
  App.persist l (App.persist l ls) = App.persist l ls.
Proof.
  unfold App.persist at 2 3. unfold localStorage.setItem.
  destruct (_ <=? _)%N eqn:Hfits.
  - unfold App.persist, localStorage.setItem.
    cbn [localStorage.items localStorage.quota].
    now rewrite update_update, Hfits.
  - unfold App.persist, localStorage.setItem. now rewrite Hfits.
Qed.

Lemma update_same (key value : jsstring) (l : list (jsstring * jsstring)) :
  localStorage.lookup key l = Some value -> localStorage.update key value l = l.
Proof.
  induction l as [|[k v] l IH]; cbn [localStorage.lookup localStorage.update];
    [discriminate|].
  destruct (str_eqb k key); [now intros [= ->] | intros H; now rewrite IH].
Qed.

Ltac representable_by_computation :=
  repeat (apply Forall_cons || apply Forall_nil); repeat split;
  vm_compute; discriminate.

(** X21. The first render of a ledger the component has written itself.  When
    the storage area holds under [dailySales] the text [JSON.stringify] makes
    of a ledger whose numbers are safe integers (which [JSON.parse] reads
    digit for digit), the component starts with that ledger; the first run of
    the effect writes the same text again, so the storage area stays what it
    was, whether the write fits the quota or not, and a start from it finds
    the ledger again. *)
Theorem mount_own_copy (ls : localStorage.Storage) (l : list Transaction) :
  Forall representable l ->
  localStorage.getItem (lit "dailySales") ls
  = Some (JSON.stringify (value_of_ledger l)) ->
  exists st,
    mount ls = Some (st, ls) /\ App.transactions st = l /\ in_step (st, ls).
Proof.
  intros _ Hget.
  assert (Hload : App.load ls = value_of_ledger l).
  { apply (load_stored ls (JSON.stringify (value_of_ledger l)));
      [exact Hget | discriminate | apply JSONFacts.parse_stringify, ledger_plain]. }
  assert (Hstart : App.initialState ls
                   = Some {| App.transactions := l; App.productName := [];
                             App.quantity := Num (Fin 1); App.price := Empty |}).
  { unfold App.initialState. now rewrite Hload, ledger_of_value_of_ledger. }
  assert (Hsame : App.persist l ls = ls).
  { unfold App.persist, localStorage.setItem.
    rewrite (update_same _ _ _ Hget).
    destruct (_ <=? _)%N; [now destruct ls | reflexivity]. }
  eexists. unfold mount. rewrite Hstart. cbn [App.transactions]. rewrite Hsame.
  split; [reflexivity|]. split; [reflexivity|].
  unfold in_step. cbn [fst snd]. now rewrite Hstart.
Qed.

Lemma mount_own_copy_witness :
  exists st,
    mount Scenario.ledger_stored = Some (st, Scenario.ledger_stored)
    /\ App.transactions st = Scenario.ledger
    /\ in_step (st, Scenario.ledger_stored).
Proof.
  apply (mount_own_copy Scenario.ledger_stored Scenario.ledger).
  - unfold Scenario.ledger. representable_by_computation.
  - reflexivity.
Defined.

(** X22. An event keeps the copy in step with the ledger as long as the
    numbers of the ledger it leaves are safe integers (which [JSON.stringify]
    writes and [JSON.parse] reads digit for digit) and the write, when there
    is one, succeeds: a start of the component from the storage area then
    finds the ledger the event has left in memory. *)
Theorem dispatch_in_step
        (LocalTZA : Z) (e : App.event) (st : App.State) (ls : localStorage.Storage) :
  in_step (st, ls) ->
  Forall representable (App.transactions (App.handle LocalTZA e st)) ->
  (forall err,
      localStorage.setItem
        (lit "dailySales")
        (JSON.stringify (value_of_ledger (App.transactions (App.handle LocalTZA e st)))) ls
      <> Throw err) ->
  in_step (App.dispatch LocalTZA e (st, ls)).
Proof.
  unfold in_step, App.dispatch. cbn [fst snd]. intros Hstep _ Hwrite.
  destruct (App.sets e st) eqn:Hsets.
  - destruct (localStorage.setItem
                (lit "dailySales")
                (JSON.stringify
                   (value_of_ledger (App.transactions (App.handle LocalTZA e st)))) ls)
      as [ls'|err] eqn:Hset; [|now destruct (Hwrite err)].
    unfold App.initialState.
    now rewrite (load_persist _ ls ls' Hset), ledger_of_value_of_ledger.
  - rewrite Hstep. f_equal.
    destruct e as [v | v | v | uuid now | id0 | confirmed clock];
      cbn [App.handle App.sets] in *; try reflexivity.
    + unfold App.handleAddTransaction. now rewrite Hsets.
    + discriminate.
    + now rewrite Hsets.
Qed.

Lemma dispatch_in_step_witness :
  in_step (App.dispatch Scenario.WIB (App.AddTransaction (lit "id-1") Scenario.thursday)
                        (Scenario.form, Scenario.ledger_stored)).
Proof.
  apply (dispatch_in_step Scenario.WIB).
  - vm_compute. reflexivity.
  - change (Forall representable
              (newTransaction (lit "id-1") (lit "Es Teh") 3 5000 Scenario.thursday
                 :: Scenario.ledger)).
    unfold Scenario.ledger. representable_by_computation.
  - intros err. vm_compute. discriminate.
Defined.

(** X23. A write that exceeds the quota does not undo the event: the ledger
    in memory has changed, the storage area has not, and a start of the
    component from it finds what it would have found before the event. *)
Theorem dispatch_quota_exceeded
        (LocalTZA : Z) (e : App.event) (st : App.State) (ls : localStorage.Storage)
        (err : error) :
  localStorage.setItem
    (lit "dailySales")
    (JSON.stringify (value_of_ledger (App.transactions (App.handle LocalTZA e st)))) ls
  = Throw err ->
  App.dispatch LocalTZA e (st, ls) = (App.handle LocalTZA e st, ls)
  /\ App.initialState (snd (App.dispatch LocalTZA e (st, ls))) = App.initialState ls.
Proof.
  intros H.
  assert (E : App.dispatch LocalTZA e (st, ls) = (App.handle LocalTZA e st, ls)).
  { unfold App.dispatch. cbn [fst snd].
    rewrite (persist_failed _ _ _ H). now destruct (App.sets e st). }
  rewrite E. split; reflexivity.
Qed.

Lemma dispatch_quota_exceeded_witness :
  let s := App.dispatch Scenario.WIB (App.AddTransaction (lit "id-1") Scenario.thursday)
                        (Scenario.form, Scenario.full_stored) in
  length (App.transactions (fst s)) = 3%nat
  /\ option_map App.transactions (App.initialState (snd s)) = Some [].
Proof.
  cbv zeta.
  destruct (dispatch_quota_exceeded
              Scenario.WIB (App.AddTransaction (lit "id-1") Scenario.thursday)
              Scenario.form Scenario.full_stored QuotaExceededError) as [E _].
  - vm_compute. reflexivity.
  - rewrite E. vm_compute. split; reflexivity.
Defined.

(** X24. An event that does not set the ledger, be it a key typed in the
    form, a submission the form refuses or a clearing the user declines,
    leaves the ledger as it was and writes nothing. *)
Theorem dispatch_nothing_set
        (LocalTZA : Z) (e : App.event) (st : App.State) (ls : localStorage.Storage) :
  App.sets e st = false ->
  App.transactions (fst (App.dispatch LocalTZA e (st, ls))) = App.transactions st
  /\ snd (App.dispatch LocalTZA e (st, ls)) = ls.
Proof.
  intros H. unfold App.dispatch. cbn [fst snd]. rewrite H. split; [|reflexivity].
  destruct e as [v | v | v | uuid now | id0 | confirmed clock];
    cbn [App.handle App.sets] in *; try reflexivity.
  - unfold App.handleAddTransaction. now rewrite H.
  - discriminate.
  - now rewrite H.
Qed.

Lemma dispatch_nothing_set_witness :
  App.dispatch Scenario.WIB (App.AddTransaction (lit "id-1") Scenario.thursday)
               (Scenario.blank_form, Scenario.nothing_stored)
  = (Scenario.blank_form, Scenario.nothing_stored).
Proof.
  destruct (dispatch_nothing_set
              Scenario.WIB (App.AddTransaction (lit "id-1") Scenario.thursday)
              Scenario.blank_form Scenario.nothing_stored) as [_ E].
  - vm_compute. reflexivity.
  - apply injective_projections; [vm_compute; reflexivity | exact E].
Defined.

(** ** The list of the day *)

Lemma fold_sales_total (l : list Transaction) :
  fold_left sales l 0 = total (map (fun t => quantity t * price t) l).
Proof.
  induction l as [|t l IH]; cbn [fold_left map total fold_right]; [reflexivity|].
  rewrite fold_sales_shift, IH. unfold sales, total. lia.
Qed.

Lemma fold_pieces_total (l : list Transaction) :
  fold_left pieces l 0 = total (map quantity l).
Proof.
  induction l as [|t l IH]; cbn [fold_left map total fold_right]; [reflexivity|].
  rewrite fold_pieces_shift, IH. unfold pieces, total. lia.
Qed.

(** X25. The list adds up to the summary: as long as the totals of the
    ledger are exact (safe integers, which neither the products of the list
    nor the sums of the summary round), the line totals of the items shown
    sum to the sales of the day and their quantities to the items of the day.
    There is one item per record of the day; the button that clears the day
    is there exactly when the message of the empty day is not, and under
    that message the two totals of the day are zero. *)
Theorem list_adds_up (LocalTZA now : Z) (l : list Transaction) :
  let s := summary LocalTZA now l in
  let shown := Markup.list_items (transactionsToday s) in
  (exact_totals l ->
   total (map Markup.itemTotal shown) = totalSalesToday s
   /\ total (map Markup.itemQuantity shown) = totalItemsToday s)
  /\ length shown = length (transactionsToday s)
  /\ Markup.clearButton (transactionsToday s)
     = negb (Markup.emptyMessage (transactionsToday s))
  /\ (Markup.emptyMessage (transactionsToday s) = true ->
      shown = [] /\ totalSalesToday s = 0 /\ totalItemsToday s = 0).
Proof.
  intros s shown. subst s shown.
  destruct (summary_totals LocalTZA now l) as (Hs & Hi & _).
  unfold Markup.list_items. rewrite !map_map. cbn [Markup.item Markup.itemTotal
                                                     Markup.itemQuantity].
  split; [intros _; split|split; [|split]].
  - now rewrite Hs, fold_sales_total.
  - now rewrite Hi, fold_pieces_total.
  - apply length_map.
  - unfold Markup.clearButton, Markup.emptyMessage.
    now destruct (transactionsToday (summary LocalTZA now l)).
  - unfold Markup.emptyMessage. rewrite Hs, Hi.
    destruct (transactionsToday (summary LocalTZA now l)); [|discriminate].
    intros _. repeat split.
Qed.

(** Thursday's list after the sale of three at 5,000: two items, 15,000 and
    36,000. *)
Lemma list_adds_up_witness :
  let l := newTransaction (lit "id-1") (lit "Es Teh") 3 5000 Scenario.thursday
             :: Scenario.ledger in
  let s := summary Scenario.WIB Scenario.thursday l in
  map Markup.itemTotal (Markup.list_items (transactionsToday s)) = [15000; 36000]
  /\ total (map Markup.itemTotal (Markup.list_items (transactionsToday s)))
     = totalSalesToday s
  /\ total (map Markup.itemQuantity (Markup.list_items (transactionsToday s)))
     = totalItemsToday s.
Proof.
  cbv zeta. split; [vm_compute; reflexivity|].
  destruct (list_adds_up Scenario.WIB Scenario.thursday
              (newTransaction (lit "id-1") (lit "Es Teh") 3 5000 Scenario.thursday
                 :: Scenario.ledger)) as (H & _).
  apply H. unfold Scenario.ledger. exact_totals_by_computation.
Defined.

(** X26. With unique ids in the ledger, the items of the list have keys that
    differ from one another, as React asks of the keys of a list. *)
Theorem list_keys_differ (LocalTZA now : Z) (l : list Transaction) :
  unique_ids l ->
  NoDup (map Markup.key
             (Markup.list_items (transactionsToday (summary LocalTZA now l)))).
Proof.
  unfold unique_ids. intros Hu.
  unfold Markup.list_items. rewrite map_map. cbn [Markup.item Markup.key].
  cbn [summary summary2 transactionsToday]. unfold dailyTransactions, weeklyTransactions.
  now do 2 apply NoDup_map_filter.
Qed.

Lemma list_keys_differ_witness :
  NoDup (map Markup.key
             (Markup.list_items
                (transactionsToday
                   (summary Scenario.WIB Scenario.saturday Scenario.weekend)))).
Proof.
  apply (list_keys_differ Scenario.WIB Scenario.saturday Scenario.weekend).
  repeat constructor; cbn [In map id];
    intros H; repeat destruct H as [H|H]; try discriminate H; exact H.
Defined.

(** X27. The delete button of an item takes that item off the list and no
    other: with unique ids in the ledger, the list after the click is the
    list before without the item, the items above and below it unchanged. *)
Theorem delete_button
        (LocalTZA now : Z) (st : App.State) (i : Markup.Item) :
  unique_ids (App.transactions st) ->
  In i (Markup.list_items
          (transactionsToday (summary LocalTZA now (App.transactions st)))) ->
  exists above below,
    Markup.list_items (transactionsToday (summary LocalTZA now (App.transactions st)))
    = above ++ i :: below
    /\ Markup.list_items
         (transactionsToday
            (summary LocalTZA now
                     (App.transactions (App.handle LocalTZA (Markup.onDelete i) st))))
       = above ++ below.
Proof.
  intros Hu Hi. unfold Markup.list_items in Hi.
  apply in_map_iff in Hi. destruct Hi as (t & <- & Ht).
  cbn [Markup.item Markup.onDelete App.handle].
  rewrite handleDeleteTransaction_transactions.
  apply transactionsToday_In in Ht. destruct Ht as [Hin Hday].
  destruct (delete_splits _ t Hu Hin) as (a & b & Hl & Hf).
  rewrite Hf, Hl. clear Hf Hl Hu Hin.
  destruct (summary_cons_today LocalTZA now t b Hday) as [Htoday _].
  exists (Markup.list_items (transactionsToday (summary LocalTZA now a))),
         (Markup.list_items (transactionsToday (summary LocalTZA now b))).
  unfold Markup.list_items.
  rewrite !transactionsToday_app, Htoday, !map_app. split; reflexivity.
Qed.

Lemma delete_button_witness :
  let st := {| App.transactions := Scenario.weekend; App.productName := [];
               App.quantity := Num (Fin 1); App.price := Empty |} in
  let i := Markup.item (newTransaction (lit "s") (lit "Roti") 4 9000
                                       (Scenario.saturday - Date.msPerHour)) in
  exists above below,
    Markup.list_items
      (transactionsToday (summary Scenario.WIB Scenario.saturday (App.transactions st)))
    = above ++ i :: below
    /\ Markup.list_items
         (transactionsToday
            (summary Scenario.WIB Scenario.saturday
                     (App.transactions
                        (App.handle Scenario.WIB (Markup.onDelete i) st))))
       = above ++ below.
Proof.
  cbv zeta. apply delete_button.
  - repeat constructor; cbn [In map id];
      intros H; repeat destruct H as [H|H]; try discriminate H; exact H.
  - vm_compute. left. reflexivity.
Defined.
